(** * BunCache: a key-value cache with lazy TTL expiry over SQLite

    Shallow embedding of [src/index.ts].  The class [BunCache] wraps a
    [bun:sqlite] database holding one table
    [cache(key TEXT PRIMARY KEY, value TEXT, ttl INTEGER)] and offers
    [get], [put], [delete] and [hasKey].

    Two parts of the JavaScript platform are modelled next to the class:
    - [JSON.stringify] / [JSON.parse] (module [JSON]), over a tree of
      JSON values, numbers being the doubles of JavaScript;
    - the SQLite handle (module [Sqlite]), as a finite map from keys to
      rows together with a schedule of storage faults, so that a
      statement can raise the way a real one does. *)

From Stdlib Require Import ZArith NArith List Ascii String Bool Lia Decimal DecimalFacts DecimalN DecimalPos.
From stdpp Require Import base option gmap strings.

Import ListNotations.
Local Open Scope Z_scope.

(** ** JavaScript values *)

(** A number of JavaScript that is not a safe integer: [NaN], an
    infinity, the negative zero, or the finite double [m * 2^e], written
    with [m] odd. *)
Inductive double : Type :=
| NaN
| Infinity (negative : bool)
| NegZero
| Fin (m : Z) (e : Z).

(** The values that [put] accepts and [get] returns.  A JavaScript string
    is carried as the bytes of its UTF-8 text, which is also how a SQLite
    TEXT column keeps it.  A number is [JNum n] when it is the safe
    integer [n] (at most 2^53 - 1 in absolute value: a double holds it
    exactly and prints it as its digits), and [JDouble d] otherwise.
    [JObj ps] lists the own properties of an object in the order
    JavaScript enumerates them.  TypeScript's types are gone at run
    time, so [put] is given any value; [is_string] and [is_object] tell
    the declared ones apart. *)
#[local] Unset Elimination Schemes.
Inductive jsvalue : Type :=
| JNull
| JBool (b : bool)
| JNum (n : Z)
| JDouble (d : double)
| JStr (s : string)
| JArr (xs : list jsvalue)
| JObj (ps : list (string * jsvalue)).
#[local] Set Elimination Schemes.

(** JavaScript's ToBoolean, which the conditional [value ? _ : _] of
    [put] applies: [null], [false], the zeros, [NaN] and the empty
    string are falsy, every array and object is truthy. *)
Definition truthy (v : jsvalue) : bool :=
  match v with
  | JNull => false
  | JBool b => b
  | JNum n => negb (n =? 0)
  | JDouble NaN => false
  | JDouble NegZero => false
  | JDouble (Infinity _) => true
  | JDouble (Fin m _) => negb (m =? 0)
  | JStr s => negb (String.eqb s EmptyString)
  | JArr _ => true
  | JObj _ => true
  end.

(** The declared type [string | object | null] of [put]'s parameter. *)
Definition is_string (v : jsvalue) : bool :=
  match v with JStr _ => true | _ => false end.

Definition is_object (v : jsvalue) : bool :=
  match v with JArr _ | JObj _ => true | _ => false end.

(** Induction over values: the elements of an array and the members of
    an object are values too. *)

Section JsvalueInd.
Variable P : jsvalue -> Prop.
Hypothesis HNull : P JNull.
Hypothesis HBool : forall b, P (JBool b).
Hypothesis HNum : forall n, P (JNum n).
Hypothesis HDouble : forall d, P (JDouble d).
Hypothesis HStr : forall s, P (JStr s).
Hypothesis HArr : forall xs, Forall P xs -> P (JArr xs).
Hypothesis HObj : forall ps, Forall (fun p => P (snd p)) ps -> P (JObj ps).

Fixpoint jsvalue_ind (v : jsvalue) : P v :=
  match v with
  | JNull => HNull
  | JBool b => HBool b
  | JNum n => HNum n
  | JDouble d => HDouble d
  | JStr s => HStr s
  | JArr xs =>
      HArr xs
        ((fix all (l : list jsvalue) : Forall P l :=
            match l with
            | [] => List.Forall_nil P
            | x :: r => @List.Forall_cons _ P x r (jsvalue_ind x) (all r)
            end) xs)
  | JObj ps =>
      HObj ps
        ((fix all (l : list (string * jsvalue)) : Forall (fun p => P (snd p)) l :=
            match l with
            | [] => List.Forall_nil _
            | p :: r => @List.Forall_cons _ (fun p => P (snd p)) p r (jsvalue_ind (snd p)) (all r)
            end) ps)
  end.
End JsvalueInd.

(** ** JSON.stringify and JSON.parse *)

(** The two platform functions that [put] and [get] call, over texts as
    lists of bytes.  [stringify] writes what JavaScript writes for a
    value of the model (no indentation); [parse] reads JSON with its
    white space, escapes, nesting and number literals, each number
    rounded to its double. *)
Module JSON.

(** *** Characters *)

Definition dquote : ascii := "034"%char.
Definition backslash : ascii := "092"%char.

Definition is_ws (c : ascii) : bool :=
  Ascii.eqb c " " || Ascii.eqb c "009" || Ascii.eqb c "010" || Ascii.eqb c "013".

Fixpoint skip_ws (s : list ascii) : list ascii :=
  match s with
  | c :: r => if is_ws c then skip_ws r else s
  | [] => []
  end.

Definition hex_digit (n : N) : ascii :=
  if (n <? 10)%N then ascii_of_N (48 + n) else ascii_of_N (87 + n).

Definition hex_value (c : ascii) : option N :=
  let n := N_of_ascii c in
  if (48 <=? n)%N && (n <=? 57)%N then Some (n - 48)%N
  else if (97 <=? n)%N && (n <=? 102)%N then Some (n - 87)%N
  else if (65 <=? n)%N && (n <=? 70)%N then Some (n - 55)%N
  else None.

Definition hex4 (a b c d : ascii) : option N :=
  match hex_value a, hex_value b, hex_value c, hex_value d with
  | Some x, Some y, Some z, Some w => Some (((x * 16 + y) * 16 + z) * 16 + w)%N
  | _, _, _, _ => None
  end.

(** *** Numbers: decimal digits *)

Fixpoint print_uint (d : uint) : list ascii :=
  match d with
  | Nil => []
  | D0 d => "0"%char :: print_uint d
  | D1 d => "1"%char :: print_uint d
  | D2 d => "2"%char :: print_uint d
  | D3 d => "3"%char :: print_uint d
  | D4 d => "4"%char :: print_uint d
  | D5 d => "5"%char :: print_uint d
  | D6 d => "6"%char :: print_uint d
  | D7 d => "7"%char :: print_uint d
  | D8 d => "8"%char :: print_uint d
  | D9 d => "9"%char :: print_uint d
  end.

Definition digit (c : ascii) : option (uint -> uint) :=
  if Ascii.eqb c "0" then Some D0
  else if Ascii.eqb c "1" then Some D1
  else if Ascii.eqb c "2" then Some D2
  else if Ascii.eqb c "3" then Some D3
  else if Ascii.eqb c "4" then Some D4
  else if Ascii.eqb c "5" then Some D5
  else if Ascii.eqb c "6" then Some D6
  else if Ascii.eqb c "7" then Some D7
  else if Ascii.eqb c "8" then Some D8
  else if Ascii.eqb c "9" then Some D9
  else None.

Fixpoint scan_digits (s : list ascii) : uint * list ascii :=
  match s with
  | c :: r =>
      match digit c with
      | Some dc => let (d, r') := scan_digits r in (dc d, r')
      | None => (Nil, s)
      end
  | [] => (Nil, [])
  end.

(** The decimal digits of an integer, with a minus sign when it is
    negative.  [JSON.stringify] writes a number with [print_number]
    below, which agrees with this on the safe integers only. *)
Definition print_digits (n : Z) : list ascii :=
  if n <? 0 then "-"%char :: print_uint (N.to_uint (Z.abs_N n))
  else print_uint (N.to_uint (Z.to_N n)).

Definition safe (n : Z) : bool := Z.abs n <=? 9007199254740991.

(** *** Numbers: the double nearest to a decimal *)

(** The floor of [p / (q * 2^E)], and how the rest compares with one
    half. *)
Definition div_pow2 (p q E : Z) : Z * comparison :=
  let num := if E <? 0 then Z.shiftl p (- E) else p in
  let den := if E <? 0 then q else Z.shiftl q E in
  (num / den, (2 * (num mod den)) ?= den).

(** Round to nearest, ties to even. *)
Definition round_even (M : Z) (c : comparison) : Z :=
  match c with
  | Lt => M
  | Gt => M + 1
  | Eq => if Z.even M then M else M + 1
  end.

(** The double nearest to [p / q], for [p] and [q] positive: a mantissa
    of at most 53 bits (2^53 itself when the rounding carries) and an
    exponent of at least -1074, where the subnormals are. *)
Definition nearest (p q : Z) : Z * Z :=
  let E0 := Z.max (Z.log2 p - Z.log2 q - 53) (-1074) in
  let E := if 9007199254740992 <=? fst (div_pow2 p q E0) then E0 + 1 else E0 in
  let (M, c) := div_pow2 p q E in
  (round_even M c, E).

(** [M * 2^E] is 2^1024 or more. *)
Definition overflows (M E : Z) : bool :=
  (971 <? E) || ((E =? 971) && (M =? 9007199254740992)).

(** [M * 2^E] with the mantissa made odd. *)
Definition odd_part (M E : Z) : Z * Z :=
  let tz := Z.log2 (Z.land M (- M)) in
  (Z.shiftr M tz, E + tz).

(** The number [M * 2^E], with its sign, as a value. *)
Definition number_of (negative : bool) (M E : Z) : jsvalue :=
  if M =? 0 then (if negative then JDouble NegZero else JNum 0)
  else if overflows M E then JDouble (Infinity negative)
  else
    let (m, e) := odd_part M E in
    if (0 <=? e) && (Z.shiftl m e <=? 9007199254740991)
    then JNum (if negative then - Z.shiftl m e else Z.shiftl m e)
    else JDouble (Fin (if negative then - m else m) e).

Definition round_ratio (negative : bool) (p q : Z) : jsvalue :=
  if p =? 0 then number_of negative 0 0
  else let (M, E) := nearest p q in number_of negative M E.

(** The Number value of [D * 10^x], for [D] not negative. *)
Definition round_decimal (negative : bool) (D x : Z) : jsvalue :=
  if x <? 0 then round_ratio negative D (10 ^ (- x))
  else round_ratio negative (D * 10 ^ x) 1.

(** *** Numbers: Number::toString *)

(** [p / q < 10^n] *)
Definition below_pow10 (p q n : Z) : bool :=
  if n <? 0 then p * 10 ^ (- n) <? q else p <? q * 10 ^ n.

Fixpoint magnitude (fuel : nat) (p q n : Z) : Z :=
  match fuel with
  | O => n
  | S fuel' =>
      if below_pow10 p q (n - 1) then magnitude fuel' p q (n - 1)
      else if below_pow10 p q n then n
      else magnitude fuel' p q (n + 1)
  end.

(** The [n] with [10^(n-1) <= p / q < 10^n], found from an estimate that
    is off by one or two at most. *)
Definition decimal_exponent (p q : Z) : Z :=
  magnitude 8 p q ((Z.log2 p - Z.log2 q) * 30103 / 100000 + 1).

(** The floor of [(p / q) / 10^j]. *)
Definition floor_scaled (p q j : Z) : Z :=
  if j <? 0 then (p * 10 ^ (- j)) / q else p / (q * 10 ^ j).

(** How [p / q] compares with the middle of [s * 10^j] and
    [(s + 1) * 10^j]. *)
Definition compare_middle (p q s j : Z) : comparison :=
  if j <? 0 then (2 * p * 10 ^ (- j)) ?= ((2 * s + 1) * q)
  else (2 * p) ?= ((2 * s + 1) * 10 ^ j * q).

Definition same_number (a b : jsvalue) : bool :=
  match a, b with
  | JNum x, JNum y => x =? y
  | JDouble (Fin m e), JDouble (Fin m' e') => (m =? m') && (e =? e')
  | _, _ => false
  end.

(** The decimals of [k] digits next to [p / q], below and above it: the
    one whose Number value is the double of [p / q], the nearer of the
    two when both are, the even one when they are as near. *)
Definition candidate (p q n k : Z) : option (Z * Z) :=
  let j := n - k in
  let lo := floor_scaled p q j in
  let hi := lo + 1 in
  let x := round_ratio false p q in
  match same_number (round_decimal false lo j) x && (1 <=? lo),
        same_number (round_decimal false hi j) x with
  | true, true =>
      match compare_middle p q lo j with
      | Lt => Some (lo, j)
      | Gt => Some (hi, j)
      | Eq => Some (if Z.even lo then lo else hi, j)
      end
  | true, false => Some (lo, j)
  | false, true => Some (hi, j)
  | false, false => None
  end.

(** The fewest digits that give the double back; seventeen always do. *)
Fixpoint shortest (fuel : nat) (p q n k : Z) : Z * Z :=
  match fuel with
  | O => (floor_scaled p q (n - k), n - k)
  | S fuel' =>
      match candidate p q n k with
      | Some sj => sj
      | None => shortest fuel' p q n (k + 1)
      end
  end.

Fixpoint strip_zeros (fuel : nat) (s j : Z) : Z * Z :=
  match fuel with
  | O => (s, j)
  | S fuel' =>
      if (s mod 10 =? 0) && negb (s =? 0)
      then strip_zeros fuel' (s / 10) (j + 1)
      else (s, j)
  end.

(** The text of [s * 10^j]: plain digits up to 21 of them before the
    point, and down to six zeros after it, exponent notation beyond. *)
Definition layout (s j : Z) : list ascii :=
  let ds := print_digits s in
  let k := Z.of_nat (List.length ds) in
  let n := k + j in
  if (k <=? n) && (n <=? 21) then ds ++ repeat "0"%char (Z.to_nat (n - k))
  else if (0 <? n) && (n <=? 21) then
    firstn (Z.to_nat n) ds ++ "."%char :: skipn (Z.to_nat n) ds
  else if (-6 <? n) && (n <=? 0) then
    "0"%char :: "."%char :: repeat "0"%char (Z.to_nat (- n)) ++ ds
  else
    firstn 1 ds
      ++ (if k =? 1 then [] else "."%char :: skipn 1 ds)
      ++ "e"%char :: (if n - 1 <? 0 then "-"%char else "+"%char)
      :: print_digits (Z.abs (n - 1)).

(** The text of the double nearest to [p / q], for [p] and [q]
    positive. *)
Definition print_ratio (p q : Z) : list ascii :=
  let (s, j) := shortest 17 p q (decimal_exponent p q) 1 in
  let (s', j') := strip_zeros 400 s j in
  layout s' j'.

Definition print_finite (m e : Z) : list ascii :=
  (if m <? 0 then ["-"%char] else [])
    ++ (if e <? 0 then print_ratio (Z.abs m) (2 ^ (- e))
        else print_ratio (Z.abs m * 2 ^ e) 1).

(** What [JSON.stringify] writes for a number that is not a safe
    integer: [null] for [NaN] and the infinities, [0] for the negative
    zero. *)
Definition print_double (d : double) : list ascii :=
  match d with
  | NaN | Infinity _ => list_ascii_of_string "null"
  | NegZero => ["0"%char]
  | Fin m e => if m =? 0 then ["0"%char] else print_finite m e
  end.

(** What [JSON.stringify] writes for [JNum n]: the digits of a safe
    integer; any other integer is written as the double nearest to
    it. *)
Definition print_number (n : Z) : list ascii :=
  if safe n then print_digits n
  else
    match round_ratio (n <? 0) (Z.abs n) 1 with
    | JDouble d => print_double d
    | _ => print_digits n
    end.

(** *** Numbers: reading a literal *)

(** A character that continues a number literal into a fraction or an
    exponent. *)
Definition continues_number (s : list ascii) : bool :=
  match s with
  | c :: _ => Ascii.eqb c "." || Ascii.eqb c "e" || Ascii.eqb c "E"
  | [] => false
  end.

(** The integer part: a single [0], or digits that do not start with
    [0]. *)
Definition scan_int (s : list ascii) : option (uint * list ascii) :=
  match s with
  | c :: r =>
      if Ascii.eqb c "0" then Some (D0 Nil, r)
      else
        match digit c with
        | Some _ => Some (scan_digits s)
        | None => None
        end
  | [] => None
  end.

(** The fraction, if there is one: a point and at least one digit. *)
Definition scan_fraction (s : list ascii) : option (uint * list ascii) :=
  match s with
  | c :: r =>
      if Ascii.eqb c "." then
        match scan_digits r with
        | (Nil, _) => None
        | (d, r') => Some (d, r')
        end
      else Some (Nil, s)
  | [] => Some (Nil, s)
  end.

(** The exponent, if there is one: [e] or [E], a sign or none, and at
    least one digit. *)
Definition scan_exponent (s : list ascii) : option (Z * list ascii) :=
  match s with
  | c :: r =>
      if Ascii.eqb c "e" || Ascii.eqb c "E" then
        let (negative, r1) :=
          match r with
          | sgn :: r' =>
              if Ascii.eqb sgn "-" then (true, r')
              else if Ascii.eqb sgn "+" then (false, r')
              else (false, r)
          | [] => (false, r)
          end in
        match scan_digits r1 with
        | (Nil, _) => None
        | (d, r') =>
            Some (if negative then - Z.of_N (N.of_uint d) else Z.of_N (N.of_uint d), r')
        end
      else Some (0, s)
  | [] => Some (0, s)
  end.

(** A literal without its sign.  The digits of a safe integer denote
    that integer; every other literal denotes the double nearest to its
    decimal value. *)
Definition parse_unsigned (negative : bool) (s : list ascii) :
  option (jsvalue * list ascii) :=
  match scan_int s with
  | Some (d, r) =>
      if continues_number r then
        match scan_fraction r with
        | Some (f, r1) =>
            match scan_exponent r1 with
            | Some (x, r2) =>
                Some (round_decimal negative
                        (Z.of_N (N.of_uint (Decimal.app d f)))
                        (x - Z.of_nat (nb_digits f)),
                      r2)
            | None => None
            end
        | None => None
        end
      else
        let n := Z.of_N (N.of_uint d) in
        if n <=? 9007199254740991 then
          Some (if negative then (if n =? 0 then JDouble NegZero else JNum (- n))
                else JNum n,
                r)
        else Some (round_decimal negative n 0, r)
  | None => None
  end.

Definition parse_number (s : list ascii) : option (jsvalue * list ascii) :=
  match s with
  | c :: r =>
      if Ascii.eqb c "-" then parse_unsigned true r
      else parse_unsigned false s
  | [] => None
  end.

(** *** Strings *)

(** QuoteJSONString, one character at a time: the quote, the backslash
    and the control characters are escaped, everything else is copied. *)
Definition escape (c : ascii) : list ascii :=
  if Ascii.eqb c dquote then [backslash; dquote]
  else if Ascii.eqb c backslash then [backslash; backslash]
  else if Ascii.eqb c "008" then [backslash; "b"%char]
  else if Ascii.eqb c "012" then [backslash; "f"%char]
  else if Ascii.eqb c "010" then [backslash; "n"%char]
  else if Ascii.eqb c "013" then [backslash; "r"%char]
  else if Ascii.eqb c "009" then [backslash; "t"%char]
  else if (N_of_ascii c <? 32)%N then
    [backslash; "u"%char; "0"%char; "0"%char;
     hex_digit (N_of_ascii c / 16); hex_digit (N_of_ascii c mod 16)]
  else [c].

Definition quote (s : list ascii) : list ascii :=
  dquote :: flat_map escape s ++ [dquote].

(** What the scanner reads between two quotes: a byte copied from the
    text, or a UTF-16 code unit written as a [\uXXXX] escape. *)
Inductive item : Type :=
| Byte (c : ascii)
| Unit16 (n : N).

Definition simple_escape (e : ascii) : option ascii :=
  if Ascii.eqb e dquote then Some dquote
  else if Ascii.eqb e backslash then Some backslash
  else if Ascii.eqb e "/" then Some "/"%char
  else if Ascii.eqb e "b" then Some "008"%char
  else if Ascii.eqb e "f" then Some "012"%char
  else if Ascii.eqb e "n" then Some "010"%char
  else if Ascii.eqb e "r" then Some "013"%char
  else if Ascii.eqb e "t" then Some "009"%char
  else None.

Definition cons_item (i : item) (k : option (list item * list ascii)) :
  option (list item * list ascii) :=
  match k with
  | Some (its, r) => Some (i :: its, r)
  | None => None
  end.

(** The body of a string literal, after its opening quote, up to and
    including the closing quote. *)
Fixpoint scan_string (s : list ascii) : option (list item * list ascii) :=
  match s with
  | [] => None
  | c :: r =>
      if Ascii.eqb c dquote then Some ([], r)
      else if Ascii.eqb c backslash then
        match r with
        | e :: r1 =>
            match simple_escape e with
            | Some b => cons_item (Byte b) (scan_string r1)
            | None =>
                if Ascii.eqb e "u" then
                  match r1 with
                  | h1 :: h2 :: h3 :: h4 :: r2 =>
                      match hex4 h1 h2 h3 h4 with
                      | Some n => cons_item (Unit16 n) (scan_string r2)
                      | None => None
                      end
                  | _ => None
                  end
                else None
            end
        | [] => None
        end
      else if (N_of_ascii c <? 32)%N then None
      else cons_item (Byte c) (scan_string r)
  end.

(** UTF-8 bytes of a code point. *)
Definition utf8 (n : N) : list ascii :=
  if (n <? 128)%N then [ascii_of_N n]
  else if (n <? 2048)%N then
    [ascii_of_N (192 + n / 64); ascii_of_N (128 + n mod 64)]
  else if (n <? 65536)%N then
    [ascii_of_N (224 + n / 4096); ascii_of_N (128 + (n / 64) mod 64);
     ascii_of_N (128 + n mod 64)]
  else
    [ascii_of_N (240 + n / 262144); ascii_of_N (128 + (n / 4096) mod 64);
     ascii_of_N (128 + (n / 64) mod 64); ascii_of_N (128 + n mod 64)].

Definition high_surrogate (n : N) : bool := (55296 <=? n)%N && (n <=? 56319)%N.
Definition low_surrogate (n : N) : bool := (56320 <=? n)%N && (n <=? 57343)%N.

(** The text of the scanned items: an escaped surrogate pair is one code
    point, any other escaped code unit stands alone. *)
Fixpoint items_text (its : list item) : list ascii :=
  match its with
  | [] => []
  | Byte c :: r => c :: items_text r
  | Unit16 hi :: r =>
      match r with
      | Unit16 lo :: r' =>
          if high_surrogate hi && low_surrogate lo
          then utf8 (65536 + (hi - 55296) * 1024 + (lo - 56320)) ++ items_text r'
          else utf8 hi ++ items_text r
      | _ => utf8 hi ++ items_text r
      end
  end.

Definition parse_string (s : list ascii) : option (string * list ascii) :=
  match scan_string s with
  | Some (its, r) => Some (string_of_list_ascii (items_text its), r)
  | None => None
  end.

(** *** Objects: property order *)

(** An array index is a property key that is the canonical decimal text
    of an integer below 2^32 - 1. *)
Definition array_index (k : string) : option N :=
  let s := list_ascii_of_string k in
  match s with
  | c :: _ =>
      match digit c with
      | Some _ =>
          let (d, r) := scan_digits s in
          let n := N.of_uint d in
          match r with
          | [] =>
              if String.eqb (string_of_list_ascii (print_uint (N.to_uint n))) k
                 && (n <? 4294967295)%N
              then Some n else None
          | _ :: _ => None
          end
      | None => None
      end
  | [] => None
  end.

Definition has_key (k : string) (ps : list (string * jsvalue)) : bool :=
  existsb (fun p => String.eqb k (fst p)) ps.

Fixpoint update (k : string) (v : jsvalue) (ps : list (string * jsvalue)) :
  list (string * jsvalue) :=
  match ps with
  | [] => []
  | (k', v') :: r =>
      if String.eqb k k' then (k, v) :: r else (k', v') :: update k v r
  end.

(** Where a new key enters the enumeration order: array indices come
    first, in ascending order, then the other keys as they were added. *)
Fixpoint add_index (i : N) (k : string) (v : jsvalue) (ps : list (string * jsvalue)) :
  list (string * jsvalue) :=
  match ps with
  | [] => [(k, v)]
  | (k', v') :: r =>
      match array_index k' with
      | Some j =>
          if (i <? j)%N then (k, v) :: ps else (k', v') :: add_index i k v r
      | None => (k, v) :: ps
      end
  end.

(** CreateDataProperty on an ordinary object. *)
Definition define_property (ps : list (string * jsvalue)) (kv : string * jsvalue) :
  list (string * jsvalue) :=
  let (k, v) := kv in
  if has_key k ps then update k v ps
  else
    match array_index k with
    | Some i => add_index i k v ps
    | None => ps ++ [(k, v)]
    end.

Definition build_object (members : list (string * jsvalue)) : list (string * jsvalue) :=
  fold_left define_property members [].

(** The enumeration order of an ordinary object, which every object
    has: the array indices in strictly ascending order, then the other
    keys, each once. *)
Fixpoint distinct_names (ps : list (string * jsvalue)) : bool :=
  match ps with
  | [] => true
  | (k, _) :: r =>
      match array_index k with
      | Some _ => false
      | None => negb (has_key k r) && distinct_names r
      end
  end.

Fixpoint property_order (ps : list (string * jsvalue)) : bool :=
  match ps with
  | [] => true
  | (k, _) :: r =>
      match array_index k with
      | Some i =>
          match r with
          | (k', _) :: _ =>
              match array_index k' with
              | Some j => (i <? j)%N
              | None => true
              end
          | [] => true
          end && property_order r
      | None => distinct_names ps
      end
  end.

(** A well-formed value: every number in it is a safe integer (at most
    2^53 - 1 in absolute value, so that the double is the integer and
    prints as its digits), and every object is in enumeration order.
    These are the values of the round trips below. *)
Fixpoint wf (v : jsvalue) : bool :=
  match v with
  | JNum n => Z.abs n <=? 9007199254740991
  | JDouble _ => false
  | JArr xs => forallb wf xs
  | JObj ps => property_order ps && forallb (fun p => wf (snd p)) ps
  | _ => true
  end.

(** *** JSON.stringify *)

Fixpoint print (v : jsvalue) : list ascii :=
  match v with
  | JNull => list_ascii_of_string "null"
  | JBool true => list_ascii_of_string "true"
  | JBool false => list_ascii_of_string "false"
  | JNum n => print_number n
  | JDouble d => print_double d
  | JStr s => quote (list_ascii_of_string s)
  | JArr xs =>
      "["%char ::
      (fix elements (l : list jsvalue) : list ascii :=
         match l with
         | [] => ["]"%char]
         | [x] => print x ++ ["]"%char]
         | x :: r => print x ++ ","%char :: elements r
         end) xs
  | JObj ps =>
      "{"%char ::
      (fix members (l : list (string * jsvalue)) : list ascii :=
         match l with
         | [] => ["}"%char]
         | [(k, x)] => quote (list_ascii_of_string k) ++ ":"%char :: print x ++ ["}"%char]
         | (k, x) :: r =>
             quote (list_ascii_of_string k) ++ ":"%char :: print x ++ ","%char :: members r
         end) ps
  end.

Definition stringify (v : jsvalue) : string := string_of_list_ascii (print v).

(** *** JSON.parse *)

Fixpoint strip_prefix (word s : list ascii) : option (list ascii) :=
  match word, s with
  | [], _ => Some s
  | w :: word', c :: s' => if Ascii.eqb w c then strip_prefix word' s' else None
  | _ :: _, [] => None
  end.

Definition literal (word : string) (v : jsvalue) (s : list ascii) :
  option (jsvalue * list ascii) :=
  match strip_prefix (list_ascii_of_string word) s with
  | Some r => Some (v, r)
  | None => None
  end.

(** Recursive descent over the text.  [fuel] bounds the nesting of the
    calls.  A call that succeeds has consumed at least one character, so
    the length of the text is fuel enough: [parse] below never stops
    short of a result (theorem [parse_value_length_enough]). *)
Fixpoint parse_value (fuel : nat) (s : list ascii) : option (jsvalue * list ascii) :=
  match fuel with
  | O => None
  | S fuel' =>
      match skip_ws s with
      | [] => None
      | c :: r =>
          if Ascii.eqb c "n" then literal "ull" JNull r
          else if Ascii.eqb c "t" then literal "rue" (JBool true) r
          else if Ascii.eqb c "f" then literal "alse" (JBool false) r
          else if Ascii.eqb c dquote then
            match parse_string r with
            | Some (str, r') => Some (JStr str, r')
            | None => None
            end
          else if Ascii.eqb c "[" then
            match skip_ws r with
            | c' :: r' =>
                if Ascii.eqb c' "]" then Some (JArr [], r')
                else
                  match parse_elements fuel' r with
                  | Some (xs, r'') => Some (JArr xs, r'')
                  | None => None
                  end
            | [] => None
            end
          else if Ascii.eqb c "{" then
            match skip_ws r with
            | c' :: r' =>
                if Ascii.eqb c' "}" then Some (JObj [], r')
                else
                  match parse_members fuel' r with
                  | Some (ms, r'') => Some (JObj (build_object ms), r'')
                  | None => None
                  end
            | [] => None
            end
          else
            parse_number (c :: r)
      end
  end

with parse_elements (fuel : nat) (s : list ascii) : option (list jsvalue * list ascii) :=
  match fuel with
  | O => None
  | S fuel' =>
      match parse_value fuel' s with
      | Some (x, r) =>
          match skip_ws r with
          | c :: r' =>
              if Ascii.eqb c "," then
                match parse_elements fuel' r' with
                | Some (xs, r'') => Some (x :: xs, r'')
                | None => None
                end
              else if Ascii.eqb c "]" then Some ([x], r')
              else None
          | [] => None
          end
      | None => None
      end
  end

with parse_members (fuel : nat) (s : list ascii) :
  option (list (string * jsvalue) * list ascii) :=
  match fuel with
  | O => None
  | S fuel' =>
      match skip_ws s with
      | q :: r0 =>
          if Ascii.eqb q dquote then
            match parse_string r0 with
            | Some (k, r1) =>
                match skip_ws r1 with
                | colon :: r2 =>
                    if Ascii.eqb colon ":" then
                      match parse_value fuel' r2 with
                      | Some (x, r3) =>
                          match skip_ws r3 with
                          | c :: r4 =>
                              if Ascii.eqb c "," then
                                match parse_members fuel' r4 with
                                | Some (ms, r5) => Some ((k, x) :: ms, r5)
                                | None => None
                                end
                              else if Ascii.eqb c "}" then Some ([(k, x)], r4)
                              else None
                          | [] => None
                          end
                      | None => None
                      end
                    else None
                | [] => None
                end
            | None => None
            end
          else None
      | [] => None
      end
  end.

(** [JSON.parse text]: one value, with nothing but white space after it.
    [None] is the SyntaxError that JavaScript throws. *)
Definition parse (text : string) : option jsvalue :=
  let s := list_ascii_of_string text in
  match parse_value (List.length s) s with
  | Some (v, r) =>
      match skip_ws r with
      | [] => Some v
      | _ :: _ => None
      end
  | None => None
  end.

(** *** Notions used in the proofs *)

(** The text right after a value printed inside an array or an object:
    a comma, a closing bracket, or the end. *)
Definition stop (r : list ascii) : bool :=
  match r with
  | [] => true
  | c :: _ => Ascii.eqb c "," || Ascii.eqb c "]" || Ascii.eqb c "}"
  end.

(** A decimal without a leading zero. *)
Definition no_leading_zero (d : uint) : bool :=
  match d with
  | Nil | D0 _ => false
  | _ => true
  end.

(** What the scanner makes of the escape of one character. *)
Definition item_of (c : ascii) : item :=
  match escape c with
  | [_; _; _; _; _; _] => Unit16 (N_of_ascii c)
  | _ => Byte c
  end.

(** The two loops of [print], by name. *)
Fixpoint print_elements (xs : list jsvalue) : list ascii :=
  match xs with
  | [] => ["]"%char]
  | [x] => print x ++ ["]"%char]
  | x :: r => print x ++ ","%char :: print_elements r
  end.

Fixpoint print_members (ps : list (string * jsvalue)) : list ascii :=
  match ps with
  | [] => ["}"%char]
  | [(k, x)] => quote (list_ascii_of_string k) ++ ":"%char :: print x ++ ["}"%char]
  | (k, x) :: r =>
      quote (list_ascii_of_string k) ++ ":"%char :: print x ++ ","%char :: print_members r
  end.

(** The calls that [parse_value] nests to read a value back. *)
Fixpoint cost (v : jsvalue) : nat :=
  match v with
  | JArr xs => S (fold_right (fun x n => S (cost x + n)) O xs)
  | JObj ps => S (fold_right (fun p n => S (cost (snd p) + n)) O ps)
  | _ => 1
  end.

Definition cost_elements (xs : list jsvalue) : nat :=
  fold_right (fun x n => S (cost x + n)) O xs.

Definition cost_members (ps : list (string * jsvalue)) : nat :=
  fold_right (fun p n => S (cost (snd p) + n)) O ps.

(** A text that begins with a value. *)
Definition begins_value (s : list ascii) : bool :=
  match s with
  | c :: _ => negb (is_ws c) && negb (Ascii.eqb c "]") && negb (Ascii.eqb c "}")
  | [] => false
  end.

(** [parse_value] reads a printed value back, whatever follows it. *)
Definition reads_back (v : jsvalue) : Prop :=
  forall fuel r,
    stop r = true -> (cost v <= fuel)%nat ->
    parse_value fuel (print v ++ r) = Some (v, r).

End JSON.


(** ** The SQLite handle *)

Module Sqlite.

(** A row of the table [cache], as the interface [CacheSchema] reads it.
    The column [key] is the key of the finite map that holds the rows. *)
Record CacheSchema : Type := {
  value : option string;
  ttl : option Z
}.

(** The database behind [this.cache]: the rows of the table, and for
    each statement still to come whether SQLite raises on it ([true]) or
    executes it.  A schedule that has run out raises nothing. *)
Record Database : Type := {
  rows : gmap string CacheSchema;
  faults : list bool
}.

Inductive SQLiteError : Type := sqlite_error.

(** How a call ends: with a result, or with an exception on its way to
    the caller. *)
Inductive completion (A : Type) : Type :=
| Normal (a : A)
| Throw (e : SQLiteError).
Arguments Normal {A} a.
Arguments Throw {A} e.

Definition M (A : Type) : Type := Database -> completion A * Database.

Definition ret {A : Type} (a : A) : M A := fun db => (Normal a, db).

Definition bind {A B : Type} (m : M A) (k : A -> M B) : M B :=
  fun db =>
    match m db with
    | (Normal a, db') => k a db'
    | (Throw e, db') => (Throw e, db')
    end.

(** [try { body } catch (error) { handler }] *)
Definition try_catch {A : Type} (body : M A) (handler : SQLiteError -> M A) : M A :=
  fun db =>
    match body db with
    | (Normal a, db') => (Normal a, db')
    | (Throw e, db') => handler e db'
    end.

Definition next_fault (db : Database) : bool :=
  match faults db with
  | true :: _ => true
  | _ => false
  end.

(** The database once a statement has run and left the rows [t]. *)
Definition step (t : gmap string CacheSchema) (db : Database) : Database :=
  {| rows := t; faults := tl (faults db) |}.

(** One call into SQLite.  A statement that raises leaves the rows as
    they were. *)
Definition statement {A : Type}
  (f : gmap string CacheSchema -> A * gmap string CacheSchema) : M A :=
  fun db =>
    if next_fault db
    then (Throw sqlite_error, step (rows db) db)
    else
      let (a, t) := f (rows db) in
      (Normal a, step t db).

(** The two queries of the class. *)
Inductive Statement : Type :=
| select_value_ttl  (* SELECT value, ttl FROM cache WHERE key = ? *)
| select_all.       (* SELECT * FROM cache WHERE key = ? *)

Definition prepare (q : Statement) : M Statement :=
  statement (fun t => (q, t)).

(** [query.get(key)]: the first row that matches, or [null]. *)
Definition stmt_get (q : Statement) (key : string) : M (option CacheSchema) :=
  statement (fun t => (t !! key, t)).

(** [INSERT OR REPLACE INTO cache VALUES (?, ?, ?)] *)
Definition run_insert_or_replace (key : string) (v : option string) (e : option Z) : M unit :=
  statement (fun t => (tt, <[key := {| value := v; ttl := e |}]> t)).

(** [DELETE FROM cache WHERE key = ?] *)
Definition run_delete (key : string) : M unit :=
  statement (fun t => (tt, delete key t)).

(** No statement to come raises. *)
Definition fault_free (db : Database) : bool := forallb negb (faults db).

End Sqlite.

Notation "x <- m ;; k" := (Sqlite.bind m (fun x => k))
  (at level 100, m at next level, right associativity).

(** ** The class BunCache *)

Module BunCache.
Import Sqlite.

(** [new BunCache()]: an in-memory database, with the table that
    [initializeSchema] creates, empty.  With [persistance] set, the
    constructor opens the file [cache.sqlite] and the rows it holds: any
    [Database]. *)
Definition new : Database := {| rows := ∅; faults := [] |}.

(** [delete(key)] *)
Definition delete (key : string) : M bool :=
  try_catch
    (_ <- run_delete key ;;
     ret true)
    (fun error => ret false).

(** [get(key)].  [now] is what [Date.now()] reads during the call.  The
    two calls into SQLite are outside any [try]; only [JSON.parse] is
    inside one. *)
Definition get (now : Z) (key : string) : M jsvalue :=
  query <- prepare select_value_ttl ;;
  result <- stmt_get query key ;;
  match result with
  | None => ret JNull
  | Some result =>
      match value result with
      | None => ret (JBool true)
      | Some text =>
          let currentTime := now in
          if match ttl result with
             | None => true
             | Some t => t >? currentTime
             end
          then
            ret (match JSON.parse text with
                 | Some v => v
                 | None => JStr text
                 end)
          else
            _ <- delete key ;;
            ret JNull
      end
  end.

(** [put(key, value, ttl?)].  [ttl = None] is the omitted argument, and
    [now] what [Date.now()] reads. *)
Definition put (now : Z) (key : string) (value : jsvalue) (ttl : option Z) : M bool :=
  let expirationTime :=
    match ttl with
    | None => None
    | Some t => Some (now + t)
    end in
  try_catch
    (_ <- run_insert_or_replace key
            (if truthy value then Some (JSON.stringify value) else None)
            expirationTime ;;
     ret true)
    (fun error => ret false).

(** [hasKey(key)] *)
Definition hasKey (key : string) : M bool :=
  try_catch
    (query <- prepare select_all ;;
     result <- stmt_get query key ;;
     ret (match result with Some _ => true | None => false end))
    (fun error => ret false).

(** *** Notions used in the proofs *)

(** The record that [put] hands to the INSERT. *)
Definition stored (now : Z) (v : jsvalue) (ttl : option Z) : CacheSchema :=
  {| value := if truthy v then Some (JSON.stringify v) else None;
     ttl := match ttl with None => None | Some t => Some (now + t) end |}.

(** The test of [get] on the ttl: absent, or strictly after [now]. *)
Definition live (now : Z) (r : CacheSchema) : bool :=
  match ttl r with
  | None => true
  | Some t => t >? now
  end.

(** Several reads in a row, at the given times. *)
Fixpoint get_each (times : list Z) (key : string) : M (list jsvalue) :=
  match times with
  | [] => ret []
  | now :: later =>
      v <- get now key ;;
      vs <- get_each later key ;;
      ret (v :: vs)
  end.

End BunCache.


(** ** The constructor *)

Module Construction.
Import Sqlite.

(** A connection as [new Database(path)] hands it over: the rows of the
    table [cache] when the database has that table, and the faults of
    the statements to come. *)
Record Connection : Type := {
  table : option (gmap string CacheSchema);
  pending : list bool
}.

(** [new Database(persistance ? "cache.sqlite" : ":memory:")].  [file]
    is the table that the file [cache.sqlite] holds, if the file exists
    and has one; a database in memory starts without a table.  The first
    entry of the schedule tells whether opening raises. *)
Definition open_database (persistance : bool)
  (file : option (gmap string CacheSchema)) (schedule : list bool) :
  completion Connection :=
  match schedule with
  | true :: _ => Throw sqlite_error
  | _ => Normal {| table := if persistance then file else None;
                   pending := tl schedule |}
  end.

(** [initializeSchema()]: [CREATE TABLE IF NOT EXISTS cache (...)]. *)
Definition initializeSchema (c : Connection) : completion Connection :=
  match pending c with
  | true :: _ => Throw sqlite_error
  | _ => Normal {| table := Some (match table c with Some t => t | None => ∅ end);
                   pending := tl (pending c) |}
  end.

(** [constructor(persistance)]: neither call is inside a [try]. *)
Definition constructor (persistance : bool)
  (file : option (gmap string CacheSchema)) (schedule : list bool) :
  completion Database :=
  match open_database persistance file schedule with
  | Normal c =>
      match initializeSchema c with
      | Normal c' =>
          Normal {| rows := match table c' with Some t => t | None => ∅ end;
                    faults := pending c' |}
      | Throw e => Throw e
      end
  | Throw e => Throw e
  end.

End Construction.


(** * Verification *)

Module JSONFacts.
Import JSON.

(** ** The codec on small inputs *)

Example stringify_array :
  stringify (JArr [JNum 1; JNull; JBool true; JNum (-42); JArr []; JObj []])
  = "[1,null,true,-42,[],{}]"%string.
Proof. reflexivity. Qed.

Example stringify_object :
  print (JObj [("a"%string, JNum 1)])
  = "{"%char :: dquote :: "a"%char :: dquote :: list_ascii_of_string ":1}".
Proof. reflexivity. Qed.

Example stringify_control_character :
  print (JStr (String "010" (String "001" EmptyString)))
  = dquote :: list_ascii_of_string "\n\u0001" ++ [dquote].
Proof. reflexivity. Qed.

Example parse_white_space :
  parse " [1 , -2 ,[ ] ] "%string = Some (JArr [JNum 1; JNum (-2); JArr []]).
Proof. reflexivity. Qed.

Example parse_bare_word : parse "plain"%string = None.
Proof. reflexivity. Qed.

Example parse_trailing_text : parse "1 2"%string = None.
Proof. reflexivity. Qed.

Example parse_leading_zero : parse "01"%string = None.
Proof. reflexivity. Qed.

Example parse_escapes :
  parse (string_of_list_ascii (dquote :: list_ascii_of_string "\u0041\t\u00e9" ++ [dquote]))
  = Some (JStr (String "A" (String "009" (String "195" (String "169" EmptyString))))).
Proof. reflexivity. Qed.

(** Members come back in enumeration order, and a repeated key keeps its
    place and takes the last value. *)
Example parse_member_order :
  parse (string_of_list_ascii
           ("{"%char :: quote (list_ascii_of_string "b") ++ list_ascii_of_string ":1,"
              ++ quote (list_ascii_of_string "10") ++ list_ascii_of_string ":2,"
              ++ quote (list_ascii_of_string "9") ++ list_ascii_of_string ":3,"
              ++ quote (list_ascii_of_string "b") ++ list_ascii_of_string ":4}"))
  = Some (JObj [("9"%string, JNum 3); ("10"%string, JNum 2); ("b"%string, JNum 4)]).
Proof. reflexivity. Qed.

(** Numbers: a literal is rounded to its double, and a double is
    written with the fewest digits that give it back. *)
Example parse_fraction :
  parse "[1.5,0.1,-2.5e-3]"%string
  = Some (JArr [JDouble (Fin 3 (-1)); JDouble (Fin 3602879701896397 (-55));
                JDouble (Fin (-5764607523034235) (-61))]).
Proof. vm_compute. reflexivity. Qed.

Example parse_integer_valued :
  parse "[1e2,1.0,1.5E+3,120e-1]"%string
  = Some (JArr [JNum 100; JNum 1; JNum 1500; JNum 12]).
Proof. vm_compute. reflexivity. Qed.

Example parse_beyond_safe :
  parse "[9007199254740993,1e21,1e999,-1e999]"%string
  = Some (JArr [JDouble (Fin 1 53); JDouble (Fin 476837158203125 21);
                JDouble (Infinity false); JDouble (Infinity true)]).
Proof. vm_compute. reflexivity. Qed.

Example parse_zeros :
  parse "[0,-0,0.0,1e-400,-1e-400,3e-324]"%string
  = Some (JArr [JNum 0; JDouble NegZero; JNum 0; JNum 0; JDouble NegZero;
                JDouble (Fin 1 (-1074))]).
Proof. vm_compute. reflexivity. Qed.

Example parse_bad_numbers :
  map parse ["1."; ".5"; "1e"; "1e+"; "-"; "+1"; "1.e2"; "0x10"; "1.5.2"]%string
  = [None; None; None; None; None; None; None; None; None].
Proof. vm_compute. reflexivity. Qed.

Example stringify_doubles :
  map stringify
    [JDouble (Fin 3 (-1)); JDouble (Fin 3602879701896397 (-55));
     JDouble (Fin (-1) (-1)); JDouble (Fin 1 (-1074));
     JDouble (Fin 9007199254740991 971); JDouble (Fin 1 53); JDouble (Fin 1 69);
     JDouble NaN; JDouble (Infinity true); JDouble NegZero]
  = ["1.5"; "0.1"; "-0.5"; "5e-324"; "1.7976931348623157e+308";
     "9007199254740992"; "590295810358705700000"; "null"; "null"; "0"]%string.
Proof. vm_compute. reflexivity. Qed.

Example stringify_large_and_small :
  map (fun t => option_map stringify (parse t))
    ["1e21"; "1e-7"; "0.000001"; "123456789012345678901"; "12345678901234567890";
     "0.30000000000000004"; "1e23"; "123.456"; "999999999999999999999";
     "4.35"; "2.2250738585072014e-308"; "100"]%string
  = map Some
      ["1e+21"; "1e-7"; "0.000001"; "123456789012345680000"; "12345678901234567000";
       "0.30000000000000004"; "1e+23"; "123.456"; "1e+21";
       "4.35"; "2.2250738585072014e-308"; "100"]%string.
Proof. vm_compute. reflexivity. Qed.

(** An integer that is not safe is written as its double is. *)
Example stringify_unsafe_integer :
  stringify (JObj [("n"%string, JNum (10 ^ 21))])
  = string_of_list_ascii
      ("{"%char :: quote (list_ascii_of_string "n") ++ list_ascii_of_string ":1e+21}").
Proof. vm_compute. reflexivity. Qed.

(** On the safe integers the rounding is the identity, as the reading of
    their digits has it. *)
Example round_safe_integers :
  map (round_decimal false 1) [0; 1; 15] ++
  map (fun n => round_decimal false n 0) [1; 2; 3; 10; 4503599627370496; 9007199254740991] ++
  map (fun n => round_decimal true n 0) [1; 7; 9007199254740991]
  = map JNum [1; 10; 1000000000000000;
              1; 2; 3; 10; 4503599627370496; 9007199254740991;
              -1; -7; -9007199254740991].
Proof. vm_compute. reflexivity. Qed.

(** ** Numbers *)

Lemma stop_cases c r :
  stop (c :: r) = true -> c = ","%char \/ c = "]"%char \/ c = "}"%char.
Proof.
  cbn [stop]. intros H.
  apply orb_prop in H as [H|H]; [apply orb_prop in H as [H|H]|];
    apply Ascii.eqb_eq in H; auto.
Qed.

Lemma stop_no_digit r :
  stop r = true -> scan_digits r = (Nil, r).
Proof.
  destruct r as [|c r]; [reflexivity|]. intros H.
  destruct (stop_cases c r H) as [-> | [-> | ->]]; reflexivity.
Qed.

Lemma stop_no_fraction r :
  stop r = true -> continues_number r = false.
Proof.
  destruct r as [|c r]; [reflexivity|]. intros H.
  destruct (stop_cases c r H) as [-> | [-> | ->]]; reflexivity.
Qed.

Lemma scan_print_uint d r :
  stop r = true -> scan_digits (print_uint d ++ r) = (d, r).
Proof.
  intros Hr. induction d; cbn [print_uint app];
    [ now apply stop_no_digit
    | cbn [scan_digits]; cbn -[scan_digits]; rewrite IHd; reflexivity .. ].
Qed.

Lemma nzhead_shape d : nzhead d = Nil \/ no_leading_zero (nzhead d) = true.
Proof. induction d; cbn; auto. Qed.

Lemma to_uint_shape p : no_leading_zero (Pos.to_uint p) = true.
Proof.
  pose proof (DecimalN.Unsigned.to_of (Pos.to_uint p)) as H.
  change (Pos.to_uint p) with (N.to_uint (Npos p)) in H at 1.
  rewrite DecimalN.Unsigned.of_to in H. cbn [N.to_uint] in H.
  unfold unorm in H. destruct (nzhead_shape (Pos.to_uint p)) as [E|E].
  - rewrite E in H. now apply DecimalPos.Unsigned.to_uint_nonzero in H.
  - destruct (nzhead (Pos.to_uint p)); try discriminate E; rewrite H; reflexivity.
Qed.

Lemma scan_int_print n r :
  stop r = true ->
  scan_int (print_uint (N.to_uint n) ++ r) = Some (N.to_uint n, r).
Proof.
  intros Hr. destruct n as [|p]; [reflexivity|].
  pose proof (to_uint_shape p) as Hs. cbn [N.to_uint] in *.
  destruct (Pos.to_uint p) as [|d|d|d|d|d|d|d|d|d|d] eqn:E; try discriminate Hs;
    unfold scan_int;
    match goal with
    | |- context [scan_digits (print_uint ?u ++ r)] =>
        cbn [print_uint app Ascii.eqb Bool.eqb digit];
        change (scan_digits (_ :: print_uint d ++ r)) with (scan_digits (print_uint u ++ r));
        rewrite (scan_print_uint u r Hr); reflexivity
    end.
Qed.

Lemma parse_unsigned_print negative n r :
  stop r = true ->
  (Z.of_N n <= 9007199254740991) ->
  parse_unsigned negative (print_uint (N.to_uint n) ++ r)
  = Some (if negative
          then (if Z.of_N n =? 0 then JDouble NegZero else JNum (- Z.of_N n))
          else JNum (Z.of_N n),
          r).
Proof.
  intros Hr Hn. unfold parse_unsigned.
  rewrite (scan_int_print n r Hr), (stop_no_fraction r Hr), DecimalN.Unsigned.of_to.
  cbn zeta. destruct (Z.leb_spec (Z.of_N n) 9007199254740991); [reflexivity|lia].
Qed.

Lemma safe_bound z : safe z = true -> Z.abs z <= 9007199254740991.
Proof. unfold safe. intros H. now apply Z.leb_le in H. Qed.

(** The digits of a safe integer are read back as that integer. *)
Lemma parse_number_print z r :
  stop r = true -> safe z = true ->
  parse_number (print_digits z ++ r) = Some (JNum z, r).
Proof.
  intros Hr Hz. apply safe_bound in Hz.
  unfold print_digits. destruct (Z.ltb_spec z 0) as [Hneg|Hpos].
  - cbn [app parse_number Ascii.eqb Bool.eqb].
    rewrite (parse_unsigned_print true _ r Hr) by lia.
    destruct (Z.eqb_spec (Z.of_N (Z.abs_N z)) 0); [lia|].
    do 3 f_equal. lia.
  - assert (Hhead : exists c s, print_uint (N.to_uint (Z.to_N z)) = c :: s /\ Ascii.eqb c "-" = false).
    { destruct (Z.to_N z) as [|p]; [now exists "0"%char, []|].
      pose proof (to_uint_shape p) as Hs. cbn [N.to_uint].
      destruct (Pos.to_uint p); try discriminate Hs; cbn; eauto. }
    destruct Hhead as (c & s & E & Hc).
    unfold parse_number. rewrite E. cbn [app]. rewrite Hc.
    change (c :: s ++ r) with ((c :: s) ++ r). rewrite <- E.
    rewrite (parse_unsigned_print false _ r Hr) by lia.
    do 3 f_equal. lia.
Qed.

(** ** Strings *)

Lemma scan_escape c r :
  scan_string (escape c ++ r) = cons_item (item_of c) (scan_string r).
Proof. destruct c as [[] [] [] [] [] [] [] []]; reflexivity. Qed.

Lemma items_text_item_of c its :
  items_text (item_of c :: its) = c :: items_text its.
Proof.
  destruct c as [[] [] [] [] [] [] [] []]; try reflexivity;
    destruct its as [|[] ?]; reflexivity.
Qed.

Lemma scan_string_quote s r :
  scan_string (flat_map escape s ++ dquote :: r) = Some (map item_of s, r).
Proof.
  induction s as [|c s IH]; [reflexivity|].
  cbn [flat_map map]. rewrite <- app_assoc, scan_escape, IH. reflexivity.
Qed.

Lemma items_text_map s : items_text (map item_of s) = s.
Proof.
  induction s as [|c s IH]; [reflexivity|].
  cbn [map]. now rewrite items_text_item_of, IH.
Qed.

Lemma parse_string_quote str r :
  parse_string (flat_map escape (list_ascii_of_string str) ++ dquote :: r)
  = Some (str, r).
Proof.
  unfold parse_string. rewrite scan_string_quote, items_text_map.
  now rewrite string_of_list_ascii_of_string.
Qed.

(** ** Objects *)

Lemma distinct_names_order ps : distinct_names ps = true -> property_order ps = true.
Proof.
  destruct ps as [|[k v] r]; [reflexivity|]. cbn [distinct_names property_order].
  destruct (array_index k); [discriminate|]. auto.
Qed.

Lemma distinct_names_all ps k v :
  distinct_names ps = true -> In (k, v) ps -> array_index k = None.
Proof.
  induction ps as [|[k1 v1] r IH]; [intros _ []|]. cbn [distinct_names].
  destruct (array_index k1) eqn:E; [discriminate|].
  intros H [[= <- <-]|Hin]; [exact E|].
  apply andb_prop in H as [_ H]. auto.
Qed.

Lemma has_key_In k v ps : In (k, v) ps -> has_key k ps = true.
Proof.
  intros H. unfold has_key. apply existsb_exists. exists (k, v). split; [exact H|].
  apply String.eqb_refl.
Qed.

Lemma order_tail p r : property_order (p :: r) = true -> property_order r = true.
Proof.
  destruct p as [k v]. cbn [property_order]. destruct (array_index k).
  - intros H. now apply andb_prop in H as [_ H].
  - cbn [distinct_names]. destruct (array_index k); [discriminate|].
    intros H. apply andb_prop in H as [_ H]. now apply distinct_names_order.
Qed.

(** After an array index, every later array index is larger. *)
Lemma order_index_lt r : forall k1 v1 i1 k v i,
  property_order ((k1, v1) :: r) = true ->
  array_index k1 = Some i1 ->
  In (k, v) r -> array_index k = Some i -> (i1 < i)%N.
Proof.
  induction r as [|[k2 v2] r IH]; intros k1 v1 i1 k v i Hord E1 Hin E; [destruct Hin|].
  pose proof (order_tail _ _ Hord) as Hord2.
  cbn [property_order] in Hord. rewrite E1 in Hord.
  apply andb_prop in Hord as [Hadj _].
  destruct (array_index k2) as [i2|] eqn:E2.
  - apply N.ltb_lt in Hadj. destruct Hin as [[= <- <-]|Hin].
    + rewrite E2 in E. injection E as <-. exact Hadj.
    + pose proof (IH k2 v2 i2 k v i Hord2 E2 Hin E). lia.
  - assert (Hn : distinct_names ((k2, v2) :: r) = true).
    { cbn [property_order] in Hord2. now rewrite E2 in Hord2. }
    rewrite (distinct_names_all _ k v Hn) in E; [discriminate|].
    destruct Hin as [[= <- <-]|Hin]; [now left|now right].
Qed.

Lemma order_has_key l1 : forall k v l2,
  property_order (l1 ++ (k, v) :: l2) = true -> has_key k l1 = false.
Proof.
  induction l1 as [|[k1 v1] l1 IH]; intros k v l2 Hord; [reflexivity|].
  pose proof (order_tail _ _ Hord) as Hord'. cbn [app] in Hord.
  change (has_key k ((k1, v1) :: l1)) with (String.eqb k k1 || has_key k l1).
  rewrite (IH k v l2 Hord'), orb_false_r.
  apply String.eqb_neq. intros ->.
  assert (Hin : In (k1, v) (l1 ++ (k1, v) :: l2)) by (apply in_or_app; right; now left).
  destruct (array_index k1) as [i1|] eqn:E1.
  - pose proof (order_index_lt _ _ _ _ _ _ _ Hord E1 Hin E1). lia.
  - cbn [property_order] in Hord. rewrite E1 in Hord. cbn [distinct_names] in Hord.
    rewrite E1 in Hord. apply andb_prop in Hord as [Hord _].
    rewrite (has_key_In _ _ _ Hin) in Hord. discriminate.
Qed.

Lemma order_add_index l1 : forall k v i l2,
  property_order (l1 ++ (k, v) :: l2) = true ->
  array_index k = Some i ->
  add_index i k v l1 = l1 ++ [(k, v)].
Proof.
  induction l1 as [|[k1 v1] l1 IH]; intros k v i l2 Hord E; [reflexivity|].
  pose proof (order_tail _ _ Hord) as Hord'. cbn [app] in Hord.
  assert (Hin : In (k, v) (l1 ++ (k, v) :: l2)) by (apply in_or_app; right; now left).
  cbn [add_index app]. destruct (array_index k1) as [i1|] eqn:E1.
  - pose proof (order_index_lt _ _ _ _ _ _ _ Hord E1 Hin E) as Hlt.
    destruct (N.ltb_spec i i1); [lia|]. now rewrite (IH k v i l2 Hord' E).
  - cbn [property_order] in Hord. rewrite E1 in Hord.
    rewrite (distinct_names_all _ k v Hord) in E; [discriminate|now right].
Qed.

Lemma define_property_next l1 k v l2 :
  property_order (l1 ++ (k, v) :: l2) = true ->
  define_property l1 (k, v) = l1 ++ [(k, v)].
Proof.
  intros Hord. unfold define_property. rewrite (order_has_key _ _ _ _ Hord).
  destruct (array_index k) as [i|] eqn:E; [|reflexivity].
  exact (order_add_index _ _ _ _ _ Hord E).
Qed.

Lemma fold_define_property l2 : forall l1,
  property_order (l1 ++ l2) = true ->
  fold_left define_property l2 l1 = l1 ++ l2.
Proof.
  induction l2 as [|[k v] l2 IH]; intros l1 Hord; [now rewrite app_nil_r|].
  cbn [fold_left]. rewrite (define_property_next _ _ _ _ Hord).
  rewrite IH; rewrite <- app_assoc; [reflexivity|exact Hord].
Qed.

(** Parsing the members back in their own order rebuilds the object. *)
Lemma build_object_order ps : property_order ps = true -> build_object ps = ps.
Proof. intros H. exact (fold_define_property ps [] H). Qed.

(** ** Fuel *)

(** More fuel never changes what a run has found. *)
Ltac split_match :=
  match goal with
  | |- context [match ?e with _ => _ end] => destruct e eqn:?
  end.

Lemma fuel_S f :
  (forall s x, parse_value f s = Some x -> parse_value (S f) s = Some x) /\
  (forall s x, parse_elements f s = Some x -> parse_elements (S f) s = Some x) /\
  (forall s x, parse_members f s = Some x -> parse_members (S f) s = Some x).
Proof.
  induction f as [|f (IHv & IHe & IHm)]; [repeat split; discriminate|].
  remember (S f) as f1 eqn:Ef1.
  repeat split; intros s x; rewrite Ef1 at 1; cbn [parse_value parse_elements parse_members];
    repeat (split_match; try discriminate; try (intros H; exact H));
    repeat match goal with
           | H : parse_value f _ = Some _ |- _ => apply IHv in H
           | H : parse_elements f _ = Some _ |- _ => apply IHe in H
           | H : parse_members f _ = Some _ |- _ => apply IHm in H
           end;
    congruence.
Qed.

Lemma fuel_le f f' :
  (f <= f')%nat ->
  (forall s x, parse_value f s = Some x -> parse_value f' s = Some x) /\
  (forall s x, parse_elements f s = Some x -> parse_elements f' s = Some x) /\
  (forall s x, parse_members f s = Some x -> parse_members f' s = Some x).
Proof.
  induction 1 as [|f' _ (IHv & IHe & IHm)]; [auto|].
  destruct (fuel_S f') as (Hv & He & Hm). repeat split; auto.
Qed.

Lemma skip_ws_length s : (List.length (skip_ws s) <= List.length s)%nat.
Proof. induction s as [|c s IH]; cbn; [lia|]. destruct (is_ws c); cbn; lia. Qed.

Lemma strip_prefix_length w : forall s r,
  strip_prefix w s = Some r -> (List.length r <= List.length s)%nat.
Proof.
  induction w as [|c w IH]; intros [|d s] r; cbn; try discriminate.
  - intros [= <-]. cbn. lia.
  - intros [= <-]. cbn. lia.
  - destruct (Ascii.eqb c d); [|discriminate]. intros H. apply IH in H. lia.
Qed.

Lemma literal_length w v s x r :
  literal w v s = Some (x, r) -> (List.length r <= List.length s)%nat.
Proof.
  unfold literal. destruct (strip_prefix _ s) eqn:E; [|discriminate].
  intros [= <- <-]. now apply strip_prefix_length in E.
Qed.

Lemma scan_string_length n : forall s its r,
  (List.length s <= n)%nat ->
  scan_string s = Some (its, r) -> (List.length r < List.length s)%nat.
Proof.
  induction n as [|n IH]; intros s its r Hn.
  - destruct s; [discriminate|cbn in Hn; lia].
  - destruct s as [|c s]; [discriminate|]. cbn [scan_string List.length] in *.
    destruct (Ascii.eqb c dquote); [intros [= <- <-]; lia|].
    destruct (Ascii.eqb c backslash).
    + destruct s as [|e s]; [discriminate|]. destruct (simple_escape e).
      * destruct (scan_string s) as [[its' r']|] eqn:E; [|discriminate].
        cbn [cons_item]. intros [= <- <-]. apply IH in E; cbn [List.length] in *; lia.
      * destruct (Ascii.eqb e "u"); [|discriminate].
        destruct s as [|h1 [|h2 [|h3 [|h4 s]]]]; try discriminate.
        destruct (hex4 h1 h2 h3 h4); [|discriminate].
        destruct (scan_string s) as [[its' r']|] eqn:E; [|discriminate].
        cbn [cons_item]. intros [= <- <-]. apply IH in E; cbn [List.length] in *; lia.
    + destruct (N_of_ascii c <? 32)%N; [discriminate|].
      destruct (scan_string s) as [[its' r']|] eqn:E; [|discriminate].
      cbn [cons_item]. intros [= <- <-]. apply IH in E; lia.
Qed.

Lemma parse_string_length s str r :
  parse_string s = Some (str, r) -> (List.length r < List.length s)%nat.
Proof.
  unfold parse_string. destruct (scan_string s) as [[its r']|] eqn:E; [|discriminate].
  intros [= <- <-]. now apply (scan_string_length (List.length s)) in E.
Qed.

Lemma scan_digits_length s : forall d r,
  scan_digits s = (d, r) -> (List.length r <= List.length s)%nat.
Proof.
  induction s as [|c s IH]; intros d r; cbn [scan_digits].
  - intros [= <- <-]. lia.
  - destruct (digit c).
    + destruct (scan_digits s) as [d' r'] eqn:E. intros [= <- <-].
      specialize (IH _ _ eq_refl). cbn. lia.
    + intros [= <- <-]. lia.
Qed.

Lemma scan_int_length s d r :
  scan_int s = Some (d, r) -> (List.length r < List.length s)%nat.
Proof.
  unfold scan_int. destruct s as [|c s]; [discriminate|].
  destruct (Ascii.eqb c "0"); [intros [= <- <-]; cbn; lia|].
  destruct (digit c) eqn:Ec; [|discriminate].
  cbn [scan_digits]. rewrite Ec.
  destruct (scan_digits s) as [d' r'] eqn:E'. intros [= <- <-].
  apply scan_digits_length in E'. cbn. lia.
Qed.

Lemma scan_fraction_length s d r :
  scan_fraction s = Some (d, r) -> (List.length r <= List.length s)%nat.
Proof.
  unfold scan_fraction. destruct s as [|c s]; [intros [= <- <-]; lia|].
  destruct (Ascii.eqb c "."); [|intros [= <- <-]; lia].
  destruct (scan_digits s) as [d' r'] eqn:E. apply scan_digits_length in E.
  destruct d'; try discriminate; intros [= <- <-]; cbn; lia.
Qed.

Lemma exponent_digits_length (negative : bool) r1 x r :
  match scan_digits r1 with
  | (Nil, _) => None
  | (d, r') =>
      Some (if negative then - Z.of_N (N.of_uint d) else Z.of_N (N.of_uint d), r')
  end = Some (x, r) ->
  (List.length r <= List.length r1)%nat.
Proof.
  destruct (scan_digits r1) as [d' r'] eqn:E. apply scan_digits_length in E.
  destruct d'; try discriminate; intros [= <- <-]; lia.
Qed.

Lemma scan_exponent_length s x r :
  scan_exponent s = Some (x, r) -> (List.length r <= List.length s)%nat.
Proof.
  unfold scan_exponent. destruct s as [|c s]; [intros [= <- <-]; lia|].
  destruct (Ascii.eqb c "e" || Ascii.eqb c "E"); [|intros [= <- <-]; lia].
  destruct s as [|sgn s'];
    [|destruct (Ascii.eqb sgn "-"); [|destruct (Ascii.eqb sgn "+")]];
    intros H;
    first [apply (exponent_digits_length true) in H
          |apply (exponent_digits_length false) in H];
    cbn [List.length] in *; lia.
Qed.

Lemma parse_unsigned_length negative s v r :
  parse_unsigned negative s = Some (v, r) -> (List.length r < List.length s)%nat.
Proof.
  unfold parse_unsigned. destruct (scan_int s) as [[d r0]|] eqn:E; [|discriminate].
  apply scan_int_length in E. destruct (continues_number r0).
  - destruct (scan_fraction r0) as [[f r1]|] eqn:E1; [|discriminate].
    destruct (scan_exponent r1) as [[x r2]|] eqn:E2; [|discriminate].
    apply scan_fraction_length in E1. apply scan_exponent_length in E2.
    intros [= <- <-]. lia.
  - cbn zeta. destruct (_ <=? _); intros [= <- <-]; lia.
Qed.

Lemma parse_number_length s v r :
  parse_number s = Some (v, r) -> (List.length r < List.length s)%nat.
Proof.
  unfold parse_number. destruct s as [|c s]; [discriminate|].
  destruct (Ascii.eqb c "-"); intros H; apply parse_unsigned_length in H;
    cbn [List.length] in *; lia.
Qed.

Ltac lengths :=
  repeat match goal with
         | H : skip_ws ?s = _ |- _ =>
             let L := fresh "L" in
             pose proof (skip_ws_length s) as L; rewrite H in L; cbn [List.length] in L;
             revert H
         | H : literal _ _ _ = Some _ |- _ =>
             let L := fresh "L" in pose proof (literal_length _ _ _ _ _ H) as L; revert H
         | H : parse_string _ = Some _ |- _ =>
             let L := fresh "L" in pose proof (parse_string_length _ _ _ H) as L; revert H
         | H : parse_number _ = Some _ |- _ =>
             let L := fresh "L" in
             pose proof (parse_number_length _ _ _ H) as L; cbn [List.length] in L; revert H
         end;
  intros.

Ltac refuel :=
  repeat match goal with
         | Hk : parse_value ?n ?l = Some ?x |- context [parse_value ?k ?l] =>
             rewrite (proj1 (fuel_le n k ltac:(lia)) l x Hk)
         | Hk : parse_elements ?n ?l = Some ?x |- context [parse_elements ?k ?l] =>
             rewrite (proj1 (proj2 (fuel_le n k ltac:(lia))) l x Hk)
         | Hk : parse_members ?n ?l = Some ?x |- context [parse_members ?k ?l] =>
             rewrite (proj2 (proj2 (fuel_le n k ltac:(lia))) l x Hk)
         | E : ?e = _ |- context [?e] => rewrite E
         end.

Lemma fuel_consumed f :
  (forall s v r, parse_value f s = Some (v, r) ->
     (List.length r < List.length s)%nat /\
     parse_value (List.length s - List.length r) s = Some (v, r)) /\
  (forall s xs r, parse_elements f s = Some (xs, r) ->
     (List.length r < List.length s)%nat /\
     parse_elements (List.length s - List.length r) s = Some (xs, r)) /\
  (forall s ms r, parse_members f s = Some (ms, r) ->
     (List.length r < List.length s)%nat /\
     parse_members (List.length s - List.length r) s = Some (ms, r)).
Proof.
  induction f as [|f (IHv & IHe & IHm)]; [repeat split; discriminate|].
  split; [|split]; intros s v r; cbn [parse_value parse_elements parse_members];
    repeat (split_match; try discriminate); intros H;
    try (injection H as <- <-);
    repeat match goal with
           | H : parse_value f _ = Some _ |- _ => apply IHv in H; destruct H as [? H]
           | H : parse_elements f _ = Some _ |- _ => apply IHe in H; destruct H as [? H]
           | H : parse_members f _ = Some _ |- _ => apply IHm in H; destruct H as [? H]
           end;
    lengths;
    (split; [lia|]);
    match goal with
    | |- context [(List.length ?a - List.length ?b)%nat] =>
        let k := fresh "k" in
        destruct (List.length a - List.length b)%nat as [|k] eqn:?; [lia|]
    end;
    cbn [parse_value parse_elements parse_members]; refuel; reflexivity.
Qed.

(** Whatever a run of [parse_value] finds with some fuel, it finds with
    the length of the text for fuel: [parse] is never cut short. *)
Theorem parse_value_length_enough f s v r :
  parse_value f s = Some (v, r) ->
  parse_value (List.length s) s = Some (v, r).
Proof.
  intros H. destruct (proj1 (fuel_consumed f) s v r H) as [_ H'].
  exact (proj1 (fuel_le (List.length s - List.length r) (List.length s) ltac:(lia))
           s (v, r) H').
Qed.

Theorem parse_any_fuel f text v r :
  parse_value f (list_ascii_of_string text) = Some (v, r) ->
  skip_ws r = [] ->
  parse text = Some v.
Proof.
  intros H Hr. unfold parse. now rewrite (parse_value_length_enough f _ v r H), Hr.
Qed.

(** ** Round trip *)

Lemma print_JArr xs : print (JArr xs) = "["%char :: print_elements xs.
Proof. reflexivity. Qed.

Lemma print_JObj ps : print (JObj ps) = "{"%char :: print_members ps.
Proof. reflexivity. Qed.

Lemma print_digits_head z :
  exists c s, print_digits z = c :: s /\
    In c (list_ascii_of_string "-0123456789").
Proof.
  unfold print_digits. destruct (z <? 0); [exists "-"%char; eexists; split; [reflexivity|now left]|].
  destruct (Z.to_N z) as [|p]; [exists "0"%char, []; split; [reflexivity|right; now left]|].
  pose proof (to_uint_shape p) as Hs. cbn [N.to_uint].
  destruct (Pos.to_uint p); try discriminate Hs; cbn [print_uint];
    eexists; eexists; (split; [reflexivity|cbn; tauto]).
Qed.

Lemma print_begins_value v r : wf v = true -> begins_value (print v ++ r) = true.
Proof.
  destruct v as [|[]|n|d|s|xs|ps]; try reflexivity; [|discriminate].
  cbn [wf print]. intros Hn. unfold print_number, safe. rewrite Hn.
  destruct (print_digits_head n) as (c & s & E & Hc). rewrite E.
  cbn in Hc. repeat (destruct Hc as [<-|Hc]; [reflexivity|]). destruct Hc.
Qed.

Lemma begins_value_skip s : begins_value s = true -> skip_ws s = s.
Proof.
  destruct s as [|c s]; [discriminate|]. cbn [begins_value skip_ws].
  destruct (is_ws c); [discriminate|reflexivity].
Qed.

(** Texts are compared with every [++] nested to the right. *)
Ltac right_assoc := repeat first [rewrite <- app_assoc | progress cbn [app]].

Lemma skip_ws_dquote s : skip_ws (dquote :: s) = dquote :: s.
Proof. reflexivity. Qed.

Lemma parse_elements_print xs :
  xs <> [] -> Forall reads_back xs ->
  forall fuel r,
    (cost_elements xs <= fuel)%nat ->
    parse_elements fuel (print_elements xs ++ r) = Some (xs, r).
Proof.
  induction xs as [|x xs IH]; [congruence|]. intros _ Hall fuel r Hfuel.
  apply Forall_cons in Hall as [Hx Hxs].
  unfold cost_elements in Hfuel. cbn [fold_right] in Hfuel.
  destruct fuel as [|fuel]; [lia|]. cbn [parse_elements].
  destruct xs as [|y ys].
  - cbn [print_elements]. right_assoc.
    rewrite (Hx fuel ("]"%char :: r)); [reflexivity|reflexivity|lia].
  - change (print_elements (x :: y :: ys))
      with (print x ++ ","%char :: print_elements (y :: ys)).
    right_assoc.
    rewrite (Hx fuel (","%char :: print_elements (y :: ys) ++ r)); [|reflexivity|lia].
    cbn [skip_ws is_ws Ascii.eqb Bool.eqb orb].
    rewrite IH; [reflexivity|discriminate|exact Hxs|].
    unfold cost_elements. lia.
Qed.

Lemma parse_members_print ps :
  ps <> [] -> Forall (fun p => reads_back (snd p)) ps ->
  forall fuel r,
    (cost_members ps <= fuel)%nat ->
    parse_members fuel (print_members ps ++ r) = Some (ps, r).
Proof.
  induction ps as [|[k x] ps IH]; [congruence|]. intros _ Hall fuel r Hfuel.
  apply Forall_cons in Hall as [Hx Hps]. cbn [snd] in Hx.
  unfold cost_members in Hfuel. cbn [fold_right snd] in Hfuel.
  destruct fuel as [|fuel]; [lia|]. cbn [parse_members].
  destruct ps as [|[k' y] ps].
  - cbn [print_members]. unfold quote. right_assoc.
    rewrite skip_ws_dquote, Ascii.eqb_refl, parse_string_quote.
    cbn [skip_ws is_ws Ascii.eqb Bool.eqb orb].
    rewrite (Hx fuel ("}"%char :: r)); [reflexivity|reflexivity|lia].
  - change (print_members ((k, x) :: (k', y) :: ps))
      with (quote (list_ascii_of_string k) ++ ":"%char :: print x ++ ","%char
              :: print_members ((k', y) :: ps)).
    unfold quote at 1. right_assoc.
    rewrite skip_ws_dquote, Ascii.eqb_refl, parse_string_quote.
    cbn [skip_ws is_ws Ascii.eqb Bool.eqb orb].
    rewrite (Hx fuel (","%char :: print_members ((k', y) :: ps) ++ r)); [|reflexivity|lia].
    cbn [skip_ws is_ws Ascii.eqb Bool.eqb orb].
    rewrite IH; [reflexivity|discriminate|exact Hps|].
    unfold cost_members. lia.
Qed.

Lemma open_bracket {A} s (close : ascii) (x : list ascii -> A) (y z : A) :
  begins_value s = true ->
  close = "]"%char \/ close = "}"%char ->
  match skip_ws s with
  | c' :: r' => if Ascii.eqb c' close then x r' else y
  | [] => z
  end = y.
Proof.
  intros Hs Hclose. rewrite (begins_value_skip s Hs).
  destruct s as [|c s]; [discriminate|]. cbn [begins_value] in Hs.
  apply andb_prop in Hs as [Hs H2]. apply andb_prop in Hs as [_ H1].
  destruct Hclose as [-> | ->].
  - now destruct (Ascii.eqb c "]").
  - now destruct (Ascii.eqb c "}").
Qed.

Lemma print_elements_begins xs r :
  xs <> [] -> forallb wf xs = true ->
  begins_value (print_elements xs ++ r) = true.
Proof.
  destruct xs as [|x [|y ys]]; [congruence| |]; intros _ Hwf;
    cbn [forallb] in Hwf; apply andb_prop in Hwf as [Hx _].
  - cbn [print_elements]. right_assoc. now apply print_begins_value.
  - change (print_elements (x :: y :: ys))
      with (print x ++ ","%char :: print_elements (y :: ys)).
    right_assoc. now apply print_begins_value.
Qed.

Lemma forallb_Forall_reads (xs : list jsvalue) :
  Forall (fun x => wf x = true -> reads_back x) xs ->
  forallb wf xs = true -> Forall reads_back xs.
Proof.
  induction 1 as [|x xs Hx _ IH]; [constructor|]. cbn [forallb].
  intros H. apply andb_prop in H as [H1 H2]. constructor; auto.
Qed.

Lemma forallb_Forall_reads_snd (ps : list (string * jsvalue)) :
  Forall (fun p => wf (snd p) = true -> reads_back (snd p)) ps ->
  forallb (fun p => wf (snd p)) ps = true ->
  Forall (fun p => reads_back (snd p)) ps.
Proof.
  induction 1 as [|p ps Hp _ IH]; [constructor|]. cbn [forallb].
  intros H. apply andb_prop in H as [H1 H2]. constructor; auto.
Qed.

Theorem parse_value_print v : wf v = true -> reads_back v.
Proof.
  induction v as [|b|n|d|s|xs IH|ps IH] using jsvalue_ind; intros Hwf fuel r Hr Hfuel;
    (destruct fuel as [|fuel]; [cbn in Hfuel; lia|]).
  - reflexivity.
  - destruct b; reflexivity.
  - destruct (print_digits_head n) as (c & s & E & Hc).
    pose proof (parse_number_print n r Hr Hwf) as Hn.
    cbn [print wf] in *. unfold print_number, safe. rewrite Hwf.
    rewrite E in *. cbn in Hc.
    repeat (destruct Hc as [<-|Hc];
            [cbn [parse_value app skip_ws is_ws Ascii.eqb Bool.eqb orb dquote];
             cbn [app] in Hn; now rewrite Hn|]).
    destruct Hc.
  - discriminate.
  - cbn [print parse_value]. unfold quote. right_assoc.
    rewrite skip_ws_dquote.
    replace (Ascii.eqb dquote "n") with false by reflexivity.
    replace (Ascii.eqb dquote "t") with false by reflexivity.
    replace (Ascii.eqb dquote "f") with false by reflexivity.
    now rewrite Ascii.eqb_refl, parse_string_quote.
  - rewrite print_JArr. cbn [app parse_value skip_ws is_ws Ascii.eqb Bool.eqb orb].
    destruct xs as [|x xs]; [reflexivity|].
    rewrite open_bracket;
      [|apply print_elements_begins; [discriminate|exact Hwf]|now left].
    rewrite parse_elements_print; [reflexivity|discriminate| |].
    + apply forallb_Forall_reads; assumption.
    + unfold cost_elements. cbn [cost] in Hfuel. lia.
  - rewrite print_JObj. cbn [app parse_value skip_ws is_ws Ascii.eqb Bool.eqb orb].
    destruct ps as [|p ps]; [reflexivity|].
    cbn [wf] in Hwf. apply andb_prop in Hwf as [Hord Hwf].
    assert (Hb : begins_value (print_members (p :: ps) ++ r) = true).
    { destruct p as [k x], ps as [|[k' y] ps]; reflexivity. }
    rewrite open_bracket; [|exact Hb|now right].
    rewrite parse_members_print; [now rewrite build_object_order|discriminate| |].
    + apply forallb_Forall_reads_snd; assumption.
    + unfold cost_members. cbn [cost] in Hfuel. lia.
Qed.

(** [JSON.parse (JSON.stringify v)] is [v]. *)
Theorem parse_stringify v : wf v = true -> parse (stringify v) = Some v.
Proof.
  intros Hwf.
  pose proof (parse_value_print v Hwf (cost v) [] eq_refl (le_n _)) as H.
  rewrite app_nil_r in H.
  apply (parse_any_fuel (cost v) _ v []); [|reflexivity].
  unfold stringify. now rewrite list_ascii_of_string_of_list_ascii.
Qed.

End JSONFacts.

(** * The class *)

Module BunCacheFacts.
Import Sqlite BunCache.

(** ** The class on small inputs *)

(** [put("x", {a:1})], then [get("x")]: the object, not its text. *)
Example scenario_object :
  fst ((_ <- put 0 "x" (JObj [("a"%string, JNum 1)]) None ;; get 1 "x") new)
  = Normal (JObj [("a"%string, JNum 1)]).
Proof. reflexivity. Qed.

(** [put("y", "plain")] stores the quoted text; [get("y")] gives the
    bare string back. *)
Example scenario_string :
  (value <$> rows (snd (put 0 "y" (JStr "plain") None new)) !! "y"
   = Some (Some (string_of_list_ascii (JSON.quote (list_ascii_of_string "plain"))))) /\
  fst ((_ <- put 0 "y" (JStr "plain") None ;; get 1 "y") new) = Normal (JStr "plain").
Proof. split; reflexivity. Qed.

(** A key never put: [get] gives [null], [hasKey] gives [false]. *)
Example scenario_fresh_key :
  fst (get 0 "k" new) = Normal JNull /\ fst (hasKey "k" new) = Normal false.
Proof. split; reflexivity. Qed.

(** ** How each method runs *)

Lemma fault_free_next db : fault_free db = true -> next_fault db = false.
Proof.
  unfold fault_free, next_fault. destruct (faults db) as [|[] fs]; cbn; congruence.
Qed.

Lemma fault_free_step t db : fault_free db = true -> fault_free (step t db) = true.
Proof.
  unfold fault_free, step. cbn [faults]. destruct (faults db) as [|b fs]; [reflexivity|].
  cbn [forallb tl]. intros H. now apply andb_prop in H as [_ H].
Qed.

Lemma statement_runs {A} (f : gmap string CacheSchema -> A * gmap string CacheSchema) db :
  next_fault db = false ->
  statement f db = (Normal (fst (f (rows db))), step (snd (f (rows db))) db).
Proof. intros H. unfold statement. rewrite H. now destruct (f (rows db)). Qed.

Lemma statement_raises {A} (f : gmap string CacheSchema -> A * gmap string CacheSchema) db :
  next_fault db = true ->
  statement f db = (Throw sqlite_error, step (rows db) db).
Proof. intros H. unfold statement. now rewrite H. Qed.

(** [delete] *)

Lemma delete_runs key db :
  next_fault db = false ->
  delete key db = (Normal true, step (base.delete key (rows db)) db).
Proof.
  intros H. unfold delete, try_catch, bind, run_delete.
  now rewrite (statement_runs _ db H).
Qed.

Lemma delete_fails key db :
  next_fault db = true ->
  delete key db = (Normal false, step (rows db) db).
Proof.
  intros H. unfold delete, try_catch, bind, run_delete.
  now rewrite (statement_raises _ db H).
Qed.

(** [put] *)

Lemma put_runs now key v ttl db :
  next_fault db = false ->
  put now key v ttl db = (Normal true, step (<[key := stored now v ttl]> (rows db)) db).
Proof.
  intros H. unfold put, try_catch, bind, run_insert_or_replace.
  now rewrite (statement_runs _ db H).
Qed.

Lemma put_fails now key v ttl db :
  next_fault db = true ->
  put now key v ttl db = (Normal false, step (rows db) db).
Proof.
  intros H. unfold put, try_catch, bind, run_insert_or_replace.
  now rewrite (statement_raises _ db H).
Qed.

(** A [put] that returned [true] wrote its record. *)
Lemma put_true now key v ttl db db1 :
  put now key v ttl db = (Normal true, db1) ->
  db1 = step (<[key := stored now v ttl]> (rows db)) db.
Proof.
  destruct (next_fault db) eqn:E.
  - rewrite (put_fails _ _ _ _ _ E). discriminate.
  - rewrite (put_runs _ _ _ _ _ E). now intros [= <-].
Qed.

(** [hasKey] *)

Lemma hasKey_runs key db :
  fault_free db = true ->
  hasKey key db
  = (Normal (match rows db !! key with Some _ => true | None => false end),
     step (rows db) (step (rows db) db)).
Proof.
  intros H. unfold hasKey, try_catch, bind, prepare, stmt_get.
  rewrite (statement_runs _ db (fault_free_next _ H)). cbn [fst snd].
  rewrite (statement_runs _ _ (fault_free_next _ (fault_free_step _ _ H))).
  reflexivity.
Qed.

(** [get]: the row that the SELECT hands over decides the rest. *)

Lemma get_select now key db :
  fault_free db = true ->
  get now key db =
  let db2 := step (rows db) (step (rows db) db) in
  match rows db !! key with
  | None => (Normal JNull, db2)
  | Some r =>
      match value r with
      | None => (Normal (JBool true), db2)
      | Some text =>
          if live now r
          then (Normal (match JSON.parse text with Some v => v | None => JStr text end), db2)
          else (Normal JNull, step (base.delete key (rows db)) db2)
      end
  end.
Proof.
  intros H. unfold get, bind, prepare, stmt_get.
  rewrite (statement_runs _ db (fault_free_next _ H)). cbn [fst snd].
  pose proof (fault_free_step (rows db) _ H) as H1.
  rewrite (statement_runs _ _ (fault_free_next _ H1)). cbn [fst snd rows step].
  destruct (rows db !! key) as [r|]; [|reflexivity].
  destruct (value r) as [text|]; [|reflexivity].
  unfold live. destruct (match ttl r with None => true | Some t => t >? now end); [reflexivity|].
  pose proof (fault_free_step (rows db) _ H1) as H2.
  rewrite (delete_runs key _ (fault_free_next _ H2)). reflexivity.
Qed.

(** Where a storage error ends up: [delete], [put] and [hasKey] catch
    it and return; [get] lets the error of its SELECT through. *)

Lemma delete_never_throws key db : exists b db', delete key db = (Normal b, db').
Proof.
  destruct (next_fault db) eqn:E;
    [rewrite (delete_fails key db E)|rewrite (delete_runs key db E)]; eauto.
Qed.

Lemma put_never_throws now key v ttl db :
  exists b db', put now key v ttl db = (Normal b, db').
Proof.
  destruct (next_fault db) eqn:E;
    [rewrite (put_fails now key v ttl db E)|rewrite (put_runs now key v ttl db E)]; eauto.
Qed.

Lemma hasKey_never_throws key db : exists b db', hasKey key db = (Normal b, db').
Proof.
  unfold hasKey, try_catch, bind, prepare, stmt_get, statement, ret.
  destruct (next_fault db); [eauto|].
  destruct (next_fault (step (rows db) db)); eauto.
Qed.

Lemma get_raises_at_prepare now key db :
  next_fault db = true ->
  get now key db = (Throw sqlite_error, step (rows db) db).
Proof.
  intros H. unfold get, bind, prepare. now rewrite (statement_raises _ db H).
Qed.

Lemma get_raises_at_select now key db :
  next_fault db = false ->
  next_fault (step (rows db) db) = true ->
  get now key db = (Throw sqlite_error, step (rows db) (step (rows db) db)).
Proof.
  intros H0 H1. unfold get, bind, prepare, stmt_get.
  rewrite (statement_runs _ db H0). cbn [fst snd].
  now rewrite (statement_raises _ _ H1).
Qed.

(** ** Reading back what was put *)

Lemma rows_step t db : rows (step t db) = t.
Proof. reflexivity. Qed.

Lemma stored_value_truthy now v ttl :
  truthy v = true -> value (stored now v ttl) = Some (JSON.stringify v).
Proof. intros H. unfold stored. cbn [value]. now rewrite H. Qed.

(** A record that holds the text of a well-formed value and has not
    expired is read back as that value. *)
Lemma get_live_stringified now key v r db :
  JSON.wf v = true ->
  rows db !! key = Some r ->
  value r = Some (JSON.stringify v) ->
  live now r = true ->
  fault_free db = true ->
  exists db', get now key db = (Normal v, db') /\ rows db' = rows db /\ fault_free db' = true.
Proof.
  intros Hwf Hr Hv Hlive Hff. rewrite (get_select now key db Hff). cbn zeta.
  rewrite Hr, Hv, Hlive, (JSONFacts.parse_stringify v Hwf).
  eexists. split; [reflexivity|]. split; [reflexivity|].
  now apply fault_free_step, fault_free_step.
Qed.

(** [put] without a ttl, then [get], for a truthy value. *)
Lemma put_get_roundtrip writeTime now key v db db1 :
  truthy v = true -> JSON.wf v = true ->
  put writeTime key v None db = (Normal true, db1) ->
  fault_free db1 = true ->
  exists db2, get now key db1 = (Normal v, db2) /\ rows db2 = rows db1 /\ fault_free db2 = true.
Proof.
  intros Ht Hwf Hput Hff. apply put_true in Hput. subst db1.
  eapply get_live_stringified; [exact Hwf| | | |exact Hff].
  - rewrite rows_step. apply lookup_insert_eq.
  - now apply stored_value_truthy.
  - reflexivity.
Qed.

Lemma get_each_unexpiring times : forall key v r db,
  JSON.wf v = true ->
  rows db !! key = Some r ->
  value r = Some (JSON.stringify v) ->
  ttl r = None ->
  fault_free db = true ->
  exists db', get_each times key db = (Normal (map (fun _ => v) times), db')
              /\ rows db' = rows db.
Proof.
  induction times as [|now later IH]; intros key v r db Hwf Hr Hv Httl Hff.
  - exists db. split; reflexivity.
  - assert (Hlive : live now r = true) by (unfold live; now rewrite Httl).
    destruct (get_live_stringified now key v r db Hwf Hr Hv Hlive Hff)
      as (db1 & Hget & Hrows & Hff1).
    rewrite <- Hrows in Hr.
    destruct (IH key v r db1 Hwf Hr Hv Httl Hff1) as (db2 & Heach & Hrows2).
    exists db2. split; [|congruence].
    cbn [get_each map]. unfold bind at 1. rewrite Hget.
    unfold bind at 1. rewrite Heach. reflexivity.
Qed.

End BunCacheFacts.

(** * The claims *)

Module Claims.
Import Sqlite BunCache BunCacheFacts.

Local Open Scope string_scope.

(** ** C1: a record with a ttl *)




(** ** C2: round trip without a ttl *)

(** C2 at the empty string: [put("k", "")] succeeds and stores [NULL],
    and the [get("k")] that follows answers [true], not [""]. *)
Theorem C2_empty_string_not_returned :
  is_string (JStr "") = true /\
  put 0 "k" (JStr "") None new
    = (Normal true, step (<["k" := {| value := None; ttl := None |}]> ∅) new) /\
  fst (get 0 "k" (snd (put 0 "k" (JStr "") None new))) = Normal (JBool true) /\
  JBool true <> JStr "".
Proof. repeat split; try reflexivity. discriminate. Qed.

(** ** C3: hasKey makes no TTL check *)

(** C3: for every key [k] whose record is expired ([ttl <= now]) and
    still in the table, [hasKey(k)] returns [true] and leaves the rows
    alone, while a [get(k)] at that time reports the key as absent when
    the record holds a text. *)
Theorem C3_hasKey_ignores_ttl (k : string) (r : CacheSchema) (t now : Z) (db : Database) :
  rows db !! k = Some r ->
  ttl r = Some t -> t <= now ->
  fault_free db = true ->
  (exists db', hasKey k db = (Normal true, db') /\ rows db' = rows db) /\
  fst (get now k db)
    = Normal (match value r with Some _ => JNull | None => JBool true end).
Proof.
  intros Hr Httl Hexp Hff. split.
  - rewrite (hasKey_runs k db Hff), Hr. eexists. split; reflexivity.
  - rewrite (get_select now k db Hff). cbn zeta. rewrite Hr.
    destruct (value r); [|reflexivity].
    replace (live now r) with false by (unfold live; rewrite Httl; lia).
    reflexivity.
Qed.

Lemma C3_hasKey_ignores_ttl_witness :
  (exists db',
      hasKey "k" (step (<["k" := {| value := Some "1"; ttl := Some 10 |}]> ∅) new)
        = (Normal true, db') /\
      rows db' = <["k" := {| value := Some "1"; ttl := Some 10 |}]> ∅) /\
  fst (get 10 "k" (step (<["k" := {| value := Some "1"; ttl := Some 10 |}]> ∅) new))
    = Normal JNull.
Proof.
  exact (C3_hasKey_ignores_ttl "k" {| value := Some "1"; ttl := Some 10 |} 10 10
           (step (<["k" := {| value := Some "1"; ttl := Some 10 |}]> ∅) new)
           eq_refl eq_refl ltac:(lia) eq_refl).
Defined.

(** ** C4: the presence marker *)

(** C4: for every key [k], after [put(k, null)] succeeds, [get(k)]
    returns the boolean [true], at any time and whatever the ttl; a key
    [k'] without a record gets [null], which is another value. *)
Theorem C4_null_reads_true (k k' : string) (ttl : option Z) (writeTime now : Z)
    (db db1 : Database) :
  put writeTime k JNull ttl db = (Normal true, db1) ->
  fault_free db1 = true ->
  rows db1 !! k' = None ->
  fst (get now k db1) = Normal (JBool true) /\
  fst (get now k' db1) = Normal JNull /\
  JBool true <> JNull.
Proof.
  intros Hput Hff Hk'. apply put_true in Hput.
  rewrite !(get_select now _ db1 Hff). cbn zeta. rewrite Hk'.
  assert (Hr : rows db1 !! k = Some (stored writeTime JNull ttl)).
  { subst db1. rewrite rows_step. apply lookup_insert_eq. }
  rewrite Hr. cbn. repeat split; discriminate.
Qed.

Lemma C4_null_reads_true_witness :
  fst (get 5 "k" (snd (put 0 "k" JNull None new))) = Normal (JBool true) /\
  fst (get 5 "other" (snd (put 0 "k" JNull None new))) = Normal JNull /\
  JBool true <> JNull.
Proof.
  apply (C4_null_reads_true "k" "other" None 0 5 new (snd (put 0 "k" JNull None new)));
    reflexivity.
Defined.

(** ** C5: put replaces the whole record *)

(** C5: for every key [k] that has a record [r0], a [put(k, v', t')]
    that succeeds leaves for [k] exactly the record made of [v'] and
    [t'], with nothing of [r0], and touches no other key.  In
    particular, after [put(k, "a", 1000)] and then [put(k, "b")], every
    [get(k)], at whatever times [times] and however many, returns
    ["b"]. *)
Theorem C5_put_replaces_record (k other : string) (r0 : CacheSchema) (v' : jsvalue)
    (t' : option Z) (writeTime : Z) (db db1 : Database)
    (timeA timeB : Z) (times : list Z) (db0 dbA dbB : Database) :
  rows db !! k = Some r0 ->
  put writeTime k v' t' db = (Normal true, db1) ->
  other <> k ->
  put timeA k (JStr "a") (Some 1000) db0 = (Normal true, dbA) ->
  put timeB k (JStr "b") None dbA = (Normal true, dbB) ->
  fault_free dbB = true ->
  rows db1 !! k
    = Some {| value := if truthy v' then Some (JSON.stringify v') else None;
              ttl := match t' with None => None | Some t => Some (writeTime + t) end |} /\
  rows db1 !! other = rows db !! other /\
  exists db', get_each times k dbB = (Normal (map (fun _ => JStr "b") times), db').
Proof.
  intros _ Hput Hother _ HputB Hff.
  apply put_true in Hput. apply put_true in HputB. subst db1.
  split; [rewrite rows_step; apply lookup_insert_eq|].
  split; [rewrite rows_step; now apply lookup_insert_ne|].
  destruct (get_each_unexpiring times k (JStr "b") (stored timeB (JStr "b") None) dbB)
    as (db' & Heach & _); try reflexivity; [|exact Hff|eauto].
  subst dbB. rewrite rows_step. apply lookup_insert_eq.
Qed.

Lemma C5_put_replaces_record_witness :
  rows (snd (put 7 "k" (JStr "b") None (snd (put 0 "k" (JStr "a") (Some 1000) new)))) !! "k"
    = Some {| value := Some (JSON.stringify (JStr "b")); ttl := None |} /\
  rows (snd (put 7 "k" (JStr "b") None (snd (put 0 "k" (JStr "a") (Some 1000) new)))) !! "other"
    = rows (snd (put 0 "k" (JStr "a") (Some 1000) new)) !! "other" /\
  exists db',
    get_each [8; 999; 1000; 1001; 5000] "k"
      (snd (put 7 "k" (JStr "b") None (snd (put 0 "k" (JStr "a") (Some 1000) new))))
    = (Normal [JStr "b"; JStr "b"; JStr "b"; JStr "b"; JStr "b"], db').
Proof.
  exact (C5_put_replaces_record "k" "other"
           {| value := Some (JSON.stringify (JStr "a")); ttl := Some 1000 |}
           (JStr "b") None 7
           (snd (put 0 "k" (JStr "a") (Some 1000) new))
           (snd (put 7 "k" (JStr "b") None (snd (put 0 "k" (JStr "a") (Some 1000) new))))
           0 7 [8; 999; 1000; 1001; 5000]
           new
           (snd (put 0 "k" (JStr "a") (Some 1000) new))
           (snd (put 7 "k" (JStr "b") None (snd (put 0 "k" (JStr "a") (Some 1000) new))))
           eq_refl eq_refl ltac:(discriminate) eq_refl eq_refl eq_refl).
Defined.

(** ** C6: deleting a key that has no record *)

(** C6: for every key [k] without a record, [delete(k)] ends normally,
    leaves the rows as they are, and returns [true] unless the DELETE
    statement itself raises; and for every key [k'], with a record or
    not, [delete(k')] returns [false] exactly when the statement
    raises. *)
Theorem C6_delete_missing_key (k k' : string) (db : Database) :
  rows db !! k = None ->
  delete k db = (Normal (negb (next_fault db)), step (rows db) db) /\
  fst (delete k' db) = Normal (negb (next_fault db)).
Proof.
  intros Hk. destruct (next_fault db) eqn:E.
  - rewrite !(delete_fails _ db E). split; reflexivity.
  - rewrite !(delete_runs _ db E). split; [|reflexivity].
    now rewrite (delete_id (rows db) k Hk).
Qed.

Lemma C6_delete_missing_key_witness :
  delete "missing" (snd (put 0 "k" (JStr "a") None new))
    = (Normal true, snd (put 0 "k" (JStr "a") None new)) /\
  fst (delete "k" (snd (put 0 "k" (JStr "a") None new))) = Normal true.
Proof.
  exact (C6_delete_missing_key "missing" "k" (snd (put 0 "k" (JStr "a") None new)) eq_refl).
Defined.

(** ** C7: decoding on read *)

(** C7: for every key [k] whose record is live (no ttl, or a ttl
    strictly after [now]) and holds a text, [get(k)] ends normally and
    leaves the rows alone; it returns the decoded value when the text
    decodes, and the text itself, unchanged, when it does not.  The text
    of a well-formed value, which is what [put] stores, always
    decodes, to that value. *)
Theorem C7_get_decodes_or_falls_back (k text : string) (r : CacheSchema) (now : Z)
    (db : Database) :
  rows db !! k = Some r ->
  value r = Some text ->
  (ttl r = None \/ exists t, ttl r = Some t /\ now < t) ->
  fault_free db = true ->
  exists res db',
    get now k db = (Normal res, db') /\ rows db' = rows db /\
    (JSON.parse text = None -> res = JStr text) /\
    (forall v, JSON.parse text = Some v -> res = v) /\
    (forall v, JSON.wf v = true -> text = JSON.stringify v -> res = v).
Proof.
  intros Hr Hv Hlive Hff. rewrite (get_select now k db Hff). cbn zeta. rewrite Hr, Hv.
  replace (live now r) with true
    by (unfold live; destruct Hlive as [-> | (t & -> & Ht)]; [reflexivity|lia]).
  do 2 eexists. split; [reflexivity|]. split; [reflexivity|].
  split; [now intros ->|]. split; [now intros v ->|].
  intros v Hwf ->. now rewrite (JSONFacts.parse_stringify v Hwf).
Qed.

(** Three texts: one that decodes to an array with a fraction in it, one
    that [put] wrote, and one that does not decode. *)
Lemma C7_get_decodes_or_falls_back_witness :
  fst (get 0 "k" (step (<["k" := {| value := Some "[1.5, {}, [true, null]]";
                                    ttl := Some 1 |}]> ∅) new))
    = Normal (JArr [JDouble (Fin 3 (-1)); JObj []; JArr [JBool true; JNull]]) /\
  fst (get 0 "k" (snd (put 0 "k" (JObj [("a", JArr [JNum 1; JStr "b"])]) None new)))
    = Normal (JObj [("a", JArr [JNum 1; JStr "b"])]) /\
  fst (get 0 "k" (step (<["k" := {| value := Some "plain"; ttl := None |}]> ∅) new))
    = Normal (JStr "plain").
Proof.
  split; [|split].
  - destruct (C7_get_decodes_or_falls_back "k" "[1.5, {}, [true, null]]"
                {| value := Some "[1.5, {}, [true, null]]"; ttl := Some 1 |} 0
                (step (<["k" := {| value := Some "[1.5, {}, [true, null]]";
                                   ttl := Some 1 |}]> ∅) new))
      as (res & db' & Hget & _ & _ & Hsome & _);
      [reflexivity | reflexivity | right; exists 1; split; [reflexivity|lia] | reflexivity |].
    rewrite Hget. cbn [fst]. f_equal. apply Hsome. vm_compute. reflexivity.
  - destruct (C7_get_decodes_or_falls_back "k"
                (JSON.stringify (JObj [("a", JArr [JNum 1; JStr "b"])]))
                {| value := Some (JSON.stringify (JObj [("a", JArr [JNum 1; JStr "b"])]));
                   ttl := None |} 0
                (snd (put 0 "k" (JObj [("a", JArr [JNum 1; JStr "b"])]) None new)))
      as (res & db' & Hget & _ & _ & _ & Hput);
      [reflexivity | reflexivity | left; reflexivity | reflexivity |].
    rewrite Hget. cbn [fst]. f_equal. apply Hput; reflexivity.
  - destruct (C7_get_decodes_or_falls_back "k" "plain"
                {| value := Some "plain"; ttl := None |} 0
                (step (<["k" := {| value := Some "plain"; ttl := None |}]> ∅) new))
      as (res & db' & Hget & _ & Hnone & _ & _);
      [reflexivity | reflexivity | left; reflexivity | reflexivity |].
    rewrite Hget. cbn [fst]. f_equal. apply Hnone. reflexivity.
Defined.

(** ** C8: storage failures *)

(** C8 at [get]: when the SELECT raises, [get("k")] throws the error to
    its caller instead of returning [null]; [hasKey], [put] and
    [delete], on the same database, return [false]. *)
Theorem C8_get_throws_storage_error :
  get 0 "k" {| rows := ∅; faults := [true] |}
    = (Throw sqlite_error, {| rows := ∅; faults := [] |}) /\
  fst (hasKey "k" {| rows := ∅; faults := [true] |}) = Normal false /\
  fst (put 0 "k" (JStr "a") None {| rows := ∅; faults := [true] |}) = Normal false /\
  fst (delete "k" {| rows := ∅; faults := [true] |}) = Normal false.
Proof. repeat split; reflexivity. Qed.

(** ** C9: the empty string *)

(** C9: for every key [k], a [put(k, "")] that succeeds stores the value
    [NULL], as [put(k, null)] does on the same database, and the
    [get(k)] that follows returns the boolean [true], not the empty
    string. *)
Theorem C9_empty_string_stored_as_null (k : string) (ttl : option Z) (writeTime now : Z)
    (db db1 : Database) :
  put writeTime k (JStr "") ttl db = (Normal true, db1) ->
  fault_free db1 = true ->
  value <$> rows db1 !! k = Some None /\
  fst (get now k db1) = Normal (JBool true) /\
  JBool true <> JStr "" /\
  put writeTime k (JStr "") ttl db = put writeTime k JNull ttl db.
Proof.
  intros Hput Hff. apply put_true in Hput.
  assert (Hr : rows db1 !! k = Some (stored writeTime (JStr "") ttl)).
  { subst db1. rewrite rows_step. apply lookup_insert_eq. }
  rewrite (get_select now k db1 Hff). cbn zeta. rewrite Hr.
  repeat split; discriminate.
Qed.

Lemma C9_empty_string_stored_as_null_witness :
  value <$> rows (snd (put 0 "k" (JStr "") None new)) !! "k" = Some None /\
  fst (get 5 "k" (snd (put 0 "k" (JStr "") None new))) = Normal (JBool true) /\
  JBool true <> JStr "" /\
  put 0 "k" (JStr "") None new = put 0 "k" JNull None new.
Proof.
  exact (C9_empty_string_stored_as_null "k" None 0 5 new
           (snd (put 0 "k" (JStr "") None new)) eq_refl eq_refl).
Defined.

(** ** C10: a null value outlives its ttl *)

(** C10: for every key [k] whose record holds the value [NULL] and a ttl
    that has passed ([ttl <= now]), [get(k)] returns the boolean [true]
    and does not delete the record. *)
Theorem C10_null_value_never_expires (k : string) (r : CacheSchema) (t now : Z)
    (db : Database) :
  rows db !! k = Some r ->
  value r = None -> ttl r = Some t -> t <= now ->
  fault_free db = true ->
  exists db',
    get now k db = (Normal (JBool true), db') /\
    rows db' = rows db /\ rows db' !! k = Some r.
Proof.
  intros Hr Hv _ _ Hff. rewrite (get_select now k db Hff). cbn zeta. rewrite Hr, Hv.
  eexists. split; [reflexivity|]. split; [reflexivity|]. now rewrite rows_step.
Qed.

Lemma C10_null_value_never_expires_witness :
  exists db',
    get 1000 "k" (snd (put 0 "k" JNull (Some 10) new)) = (Normal (JBool true), db') /\
    rows db' = rows (snd (put 0 "k" JNull (Some 10) new)) /\
    rows db' !! "k" = Some {| value := None; ttl := Some 10 |}.
Proof.
  exact (C10_null_value_never_expires "k" {| value := None; ttl := Some 10 |} 10 1000
           (snd (put 0 "k" JNull (Some 10) new))
           eq_refl eq_refl eq_refl ltac:(lia) eq_refl).
Defined.

End Claims.

(** * More of the class *)

Module Extras.
Import Sqlite BunCache BunCacheFacts Construction.

Local Open Scope string_scope.

(** ** Every schedule of faults *)

(** [get], whatever the storage does: the two SELECT calls can throw,
    the DELETE of the purge cannot (its error stops in [delete]). *)
Lemma get_any_schedule now key db :
  get now key db =
  if next_fault db then (Throw sqlite_error, step (rows db) db)
  else if next_fault (step (rows db) db)
  then (Throw sqlite_error, step (rows db) (step (rows db) db))
  else
    match rows db !! key with
    | None => (Normal JNull, step (rows db) (step (rows db) db))
    | Some r =>
        match value r with
        | None => (Normal (JBool true), step (rows db) (step (rows db) db))
        | Some text =>
            if live now r
            then (Normal (match JSON.parse text with Some v => v | None => JStr text end),
                  step (rows db) (step (rows db) db))
            else (Normal JNull,
                  step (if next_fault (step (rows db) (step (rows db) db))
                        then rows db else base.delete key (rows db))
                       (step (rows db) (step (rows db) db)))
        end
    end.
Proof.
  destruct (next_fault db) eqn:E0; [now apply get_raises_at_prepare|].
  destruct (next_fault (step (rows db) db)) eqn:E1; [now apply get_raises_at_select|].
  unfold get, bind, prepare, stmt_get.
  rewrite (statement_runs _ db E0). cbn [fst snd].
  rewrite (statement_runs _ _ E1). cbn [fst snd].
  change (rows (step (rows db) db)) with (rows db).
  destruct (rows db !! key) as [r|]; [|reflexivity].
  destruct (value r) as [text|]; [|reflexivity].
  unfold live. destruct (match ttl r with None => true | Some t => t >? now end); [reflexivity|].
  destruct (next_fault (step (rows db) (step (rows db) db))) eqn:E2.
  - now rewrite (delete_fails key _ E2).
  - now rewrite (delete_runs key _ E2).
Qed.

Lemma hasKey_any_schedule key db :
  hasKey key db =
  if next_fault db then (Normal false, step (rows db) db)
  else if next_fault (step (rows db) db)
  then (Normal false, step (rows db) (step (rows db) db))
  else (Normal (match rows db !! key with Some _ => true | None => false end),
        step (rows db) (step (rows db) db)).
Proof.
  unfold hasKey, try_catch, bind, prepare, stmt_get, statement, ret.
  destruct (next_fault db); [reflexivity|].
  destruct (next_fault (step (rows db) db)); reflexivity.
Qed.

Lemma put_true_rows now key v ttl db db1 :
  put now key v ttl db = (Normal true, db1) ->
  rows db1 = <[key := stored now v ttl]> (rows db) /\
  (fault_free db = true -> fault_free db1 = true).
Proof.
  intros H. apply put_true in H. subst db1. split; [reflexivity|].
  apply fault_free_step.
Qed.

(** ** Keys without a record *)

(** X1: for a key that has no record, [get] returns [null] and [hasKey]
    returns [false], and neither changes the rows. *)
Theorem X1_missing_key (k : string) (now : Z) (db : Database) :
  rows db !! k = None ->
  fault_free db = true ->
  exists db1 db2,
    get now k db = (Normal JNull, db1) /\ rows db1 = rows db /\
    hasKey k db = (Normal false, db2) /\ rows db2 = rows db.
Proof.
  intros Hk Hff. rewrite (get_select now k db Hff), (hasKey_runs k db Hff), Hk.
  cbn zeta. do 2 eexists. repeat split.
Qed.

Lemma X1_missing_key_witness :
  exists db1 db2,
    get 5 "absent" (snd (put 0 "k" (JStr "a") None new)) = (Normal JNull, db1) /\
    rows db1 = rows (snd (put 0 "k" (JStr "a") None new)) /\
    hasKey "absent" (snd (put 0 "k" (JStr "a") None new)) = (Normal false, db2) /\
    rows db2 = rows (snd (put 0 "k" (JStr "a") None new)).
Proof.
  exact (X1_missing_key "absent" 5 (snd (put 0 "k" (JStr "a") None new)) eq_refl eq_refl).
Defined.

(** ** What put leaves behind *)

(** X2: after a [put] that succeeds, whatever the value (also [null] or
    the empty string) and whatever the ttl, [hasKey] of that key returns
    [true] and changes nothing. *)
Theorem X2_put_then_hasKey (k : string) (v : jsvalue) (ttl : option Z) (writeTime : Z)
    (db db1 : Database) :
  put writeTime k v ttl db = (Normal true, db1) ->
  fault_free db1 = true ->
  exists db2, hasKey k db1 = (Normal true, db2) /\ rows db2 = rows db1.
Proof.
  intros Hput Hff. destruct (put_true_rows _ _ _ _ _ _ Hput) as [Hrows _].
  rewrite (hasKey_runs k db1 Hff), Hrows, lookup_insert_eq.
  eexists. split; [reflexivity|]. now rewrite rows_step.
Qed.

Lemma X2_put_then_hasKey_witness :
  exists db2,
    hasKey "k" (snd (put 0 "k" JNull (Some (-5)) new)) = (Normal true, db2) /\
    rows db2 = rows (snd (put 0 "k" JNull (Some (-5)) new)).
Proof.
  exact (X2_put_then_hasKey "k" JNull (Some (-5)) 0 new
           (snd (put 0 "k" JNull (Some (-5)) new)) eq_refl eq_refl).
Defined.



(** X4: on every value that [JSON.stringify] serialises (the values of
    the model: no cyclic object, no BigInt), [put] never throws.  It
    returns [true] exactly when the INSERT does not raise, and then the
    record of the key is the new one; when it returns [false] the rows
    are as they were. *)
Theorem X4_put_outcome (k : string) (v : jsvalue) (ttl : option Z) (writeTime : Z)
    (db : Database) :
  exists b db1,
    put writeTime k v ttl db = (Normal b, db1) /\
    b = negb (next_fault db) /\
    rows db1 = if b then <[k := stored writeTime v ttl]> (rows db) else rows db.
Proof.
  destruct (next_fault db) eqn:E.
  - rewrite (put_fails _ _ _ _ _ E). exists false. eexists. repeat split.
  - rewrite (put_runs _ _ _ _ _ E). exists true. eexists. repeat split.
Qed.

(** X5: [hasKey] never throws and never changes the rows.  It returns
    [true] exactly when the key has a record and neither of its two
    calls into SQLite raises: a [false] can hide a record. *)
Theorem X5_hasKey_outcome (k : string) (db : Database) :
  exists b db1,
    hasKey k db = (Normal b, db1) /\
    rows db1 = rows db /\
    b = negb (next_fault db) && negb (next_fault (step (rows db) db))
        && (match rows db !! k with Some _ => true | None => false end).
Proof.
  rewrite hasKey_any_schedule.
  destruct (next_fault db); [do 2 eexists; repeat split|].
  destruct (next_fault (step (rows db) db)); do 2 eexists; repeat split.
Qed.

(** ** What get does to the storage *)

(** X6: [get] throws exactly when one of its two SELECT calls raises
    (preparing the query, or running it), and then the rows are as they
    were. *)
Theorem X6_get_throws_iff (k : string) (now : Z) (db : Database) :
  (fst (get now k db) = Throw sqlite_error
   <-> next_fault db || next_fault (step (rows db) db) = true) /\
  (fst (get now k db) = Throw sqlite_error -> rows (snd (get now k db)) = rows db).
Proof.
  rewrite get_any_schedule.
  destruct (next_fault db); [repeat split|].
  destruct (next_fault (step (rows db) db)); [repeat split|].
  cbn [orb]. destruct (rows db !! k) as [r|]; [|repeat split; discriminate].
  destruct (value r); [|repeat split; discriminate].
  destruct (live now r); repeat split; discriminate.
Qed.

(** X7: when the record is expired and the DELETE of the purge raises,
    [get] still returns [null], and the record stays in the table. *)
Theorem X7_failed_purge_is_silent (k text : string) (r : CacheSchema) (t now : Z)
    (db : Database) :
  rows db !! k = Some r ->
  value r = Some text -> ttl r = Some t -> t <= now ->
  next_fault db = false ->
  next_fault (step (rows db) db) = false ->
  next_fault (step (rows db) (step (rows db) db)) = true ->
  exists db1,
    get now k db = (Normal JNull, db1) /\
    rows db1 = rows db /\ rows db1 !! k = Some r.
Proof.
  intros Hr Hv Httl Hexp E0 E1 E2. rewrite get_any_schedule, E0, E1, Hr, Hv, E2.
  replace (live now r) with false by (unfold live; rewrite Httl; lia).
  eexists. split; [reflexivity|]. now rewrite rows_step.
Qed.

Lemma X7_failed_purge_is_silent_witness :
  exists db1,
    get 20 "k" {| rows := <["k" := {| value := Some "1"; ttl := Some 10 |}]> ∅;
                  faults := [false; false; true] |}
      = (Normal JNull, db1) /\
    rows db1 = <["k" := {| value := Some "1"; ttl := Some 10 |}]> ∅ /\
    rows db1 !! "k" = Some {| value := Some "1"; ttl := Some 10 |}.
Proof.
  exact (X7_failed_purge_is_silent "k" "1" {| value := Some "1"; ttl := Some 10 |} 10 20
           {| rows := <["k" := {| value := Some "1"; ttl := Some 10 |}]> ∅;
              faults := [false; false; true] |}
           eq_refl eq_refl eq_refl ltac:(lia) eq_refl eq_refl eq_refl).
Defined.

(** X8: [get(k)], under any schedule of faults, leaves the rows as they
    were or removes the record of [k]; the record of any other key [k']
    is untouched.  Reading one key never purges another. *)
Theorem X8_get_touches_only_its_key (k k' : string) (now : Z) (db : Database) :
  k' <> k ->
  (rows (snd (get now k db)) = rows db \/
   rows (snd (get now k db)) = base.delete k (rows db)) /\
  rows (snd (get now k db)) !! k' = rows db !! k'.
Proof.
  intros Hne.
  assert (H : rows (snd (get now k db)) = rows db \/
              rows (snd (get now k db)) = base.delete k (rows db)).
  { rewrite get_any_schedule.
    destruct (next_fault db); [now left|].
    destruct (next_fault (step (rows db) db)); [now left|].
    destruct (rows db !! k) as [r|]; [|now left].
    destruct (value r); [|now left].
    destruct (live now r); [now left|].
    destruct (next_fault _); [now left|now right]. }
  split; [exact H|]. destruct H as [-> | ->]; [reflexivity|].
  now apply lookup_delete_ne.
Qed.

Lemma X8_get_touches_only_its_key_witness :
  (rows (snd (get 20 "k" (snd (put 0 "other" (JStr "b") (Some 5)
                                 (snd (put 0 "k" (JStr "a") (Some 5) new))))))
     = rows (snd (put 0 "other" (JStr "b") (Some 5) (snd (put 0 "k" (JStr "a") (Some 5) new))))
   \/
   rows (snd (get 20 "k" (snd (put 0 "other" (JStr "b") (Some 5)
                                 (snd (put 0 "k" (JStr "a") (Some 5) new))))))
     = base.delete "k"
         (rows (snd (put 0 "other" (JStr "b") (Some 5)
                       (snd (put 0 "k" (JStr "a") (Some 5) new)))))) /\
  rows (snd (get 20 "k" (snd (put 0 "other" (JStr "b") (Some 5)
                                (snd (put 0 "k" (JStr "a") (Some 5) new)))))) !! "other"
    = rows (snd (put 0 "other" (JStr "b") (Some 5)
                   (snd (put 0 "k" (JStr "a") (Some 5) new)))) !! "other".
Proof.
  exact (X8_get_touches_only_its_key "k" "other" 20
           (snd (put 0 "other" (JStr "b") (Some 5) (snd (put 0 "k" (JStr "a") (Some 5) new))))
           ltac:(discriminate)).
Defined.

(** X9: [get] removes a record only when the record holds a text and
    its ttl has passed: a live record and a record with the value NULL
    are never deleted by a read. *)
Theorem X9_get_purges_only_expired (k : string) (r : CacheSchema) (now : Z)
    (db : Database) :
  rows db !! k = Some r ->
  rows (snd (get now k db)) !! k = None ->
  exists text t, value r = Some text /\ ttl r = Some t /\ t <= now.
Proof.
  intros Hr. rewrite get_any_schedule.
  destruct (next_fault db); [cbn; congruence|].
  destruct (next_fault (step (rows db) db)); [cbn; congruence|].
  rewrite Hr. destruct (value r) as [text|]; [|cbn; congruence].
  unfold live. destruct (ttl r) as [t|]; [|cbn; congruence].
  destruct (Z.gtb_spec t now); [cbn; congruence|].
  intros _. eauto.
Qed.

Lemma X9_get_purges_only_expired_witness :
  exists text t,
    value {| value := Some "1"; ttl := Some 10 |} = Some text /\
    ttl {| value := Some "1"; ttl := Some 10 |} = Some t /\ t <= 10.
Proof.
  exact (X9_get_purges_only_expired "k" {| value := Some "1"; ttl := Some 10 |} 10
           (step (<["k" := {| value := Some "1"; ttl := Some 10 |}]> ∅) new)
           eq_refl eq_refl).
Defined.

(** X16: reading twice gives the same answer: a second [get] of the key
    at the same time returns what the first returned, also when the
    first one purged the record, and it changes nothing any more. *)
Theorem X16_get_twice (k : string) (now : Z) (db : Database) :
  fault_free db = true ->
  fst (get now k (snd (get now k db))) = fst (get now k db) /\
  rows (snd (get now k (snd (get now k db)))) = rows (snd (get now k db)).
Proof.
  intros Hff.
  assert (Hff1 : fault_free (snd (get now k db)) = true).
  { rewrite (get_select now k db Hff). cbn zeta.
    destruct (rows db !! k) as [r|]; [|now do 2 apply fault_free_step].
    destruct (value r); [|now do 2 apply fault_free_step].
    destruct (live now r); [now do 2 apply fault_free_step|now do 3 apply fault_free_step]. }
  rewrite (get_select now k _ Hff1). cbn zeta.
  rewrite (get_select now k db Hff). cbn zeta.
  destruct (rows db !! k) as [r|] eqn:Hr; cbn [fst snd]; rewrite ?rows_step.
  - destruct (value r) as [text|] eqn:Hv; cbn [fst snd]; rewrite ?rows_step.
    + destruct (live now r) eqn:Hl; cbn [fst snd]; rewrite ?rows_step.
      * rewrite Hr, Hv, Hl. split; reflexivity.
      * rewrite lookup_delete_eq. split; reflexivity.
    + rewrite Hr, Hv. split; reflexivity.
  - rewrite Hr. split; reflexivity.
Qed.

Lemma X16_get_twice_witness :
  fst (get 20 "k" (snd (get 20 "k" (snd (put 0 "k" (JStr "a") (Some 10) new)))))
    = fst (get 20 "k" (snd (put 0 "k" (JStr "a") (Some 10) new))) /\
  rows (snd (get 20 "k" (snd (get 20 "k" (snd (put 0 "k" (JStr "a") (Some 10) new))))))
    = rows (snd (get 20 "k" (snd (put 0 "k" (JStr "a") (Some 10) new)))).
Proof.
  exact (X16_get_twice "k" 20 (snd (put 0 "k" (JStr "a") (Some 10) new)) eq_refl).
Defined.

(** ** Deleting, and keys side by side *)

(** X10: [delete] of a key that has a record returns [true] and removes
    that record and no other; after it [get] of the key returns [null]
    and [hasKey] returns [false]. *)
Theorem X10_delete_removes_record (k k' : string) (r : CacheSchema) (now : Z)
    (db : Database) :
  rows db !! k = Some r ->
  k' <> k ->
  fault_free db = true ->
  exists db1,
    delete k db = (Normal true, db1) /\
    rows db1 !! k = None /\
    rows db1 !! k' = rows db !! k' /\
    fst (get now k db1) = Normal JNull /\
    fst (hasKey k db1) = Normal false.
Proof.
  intros _ Hne Hff. rewrite (delete_runs k db (fault_free_next db Hff)).
  eexists. split; [reflexivity|].
  pose proof (fault_free_step (base.delete k (rows db)) db Hff) as Hff1.
  rewrite (get_select now k _ Hff1), (hasKey_runs k _ Hff1), !rows_step. cbn zeta.
  rewrite lookup_delete_eq, (lookup_delete_ne (rows db) k k') by congruence.
  repeat split.
Qed.

Lemma X10_delete_removes_record_witness :
  exists db1,
    delete "k" (snd (put 0 "other" JNull None (snd (put 0 "k" (JStr "a") None new))))
      = (Normal true, db1) /\
    rows db1 !! "k" = None /\
    rows db1 !! "other"
      = rows (snd (put 0 "other" JNull None (snd (put 0 "k" (JStr "a") None new)))) !! "other" /\
    fst (get 3 "k" db1) = Normal JNull /\
    fst (hasKey "k" db1) = Normal false.
Proof.
  exact (X10_delete_removes_record "k" "other"
           {| value := Some (JSON.stringify (JStr "a")); ttl := None |} 3
           (snd (put 0 "other" JNull None (snd (put 0 "k" (JStr "a") None new))))
           eq_refl ltac:(discriminate) eq_refl).
Defined.

(** X11: a [put] on one key changes nothing for another: [get] and
    [hasKey] of a key [k'] answer after a [put(k, ...)] what they
    answered before it. *)
Theorem X11_put_leaves_other_keys (k k' : string) (v : jsvalue) (ttl : option Z)
    (writeTime now : Z) (db db1 : Database) :
  k' <> k ->
  put writeTime k v ttl db = (Normal true, db1) ->
  fault_free db = true ->
  fst (get now k' db1) = fst (get now k' db) /\
  fst (hasKey k' db1) = fst (hasKey k' db).
Proof.
  intros Hne Hput Hff. destruct (put_true_rows _ _ _ _ _ _ Hput) as [Hrows Hff1].
  specialize (Hff1 Hff).
  rewrite (get_select now k' db1 Hff1), (get_select now k' db Hff).
  rewrite (hasKey_runs k' db1 Hff1), (hasKey_runs k' db Hff). cbn zeta.
  rewrite Hrows, (lookup_insert_ne (rows db) k k') by congruence.
  split; [|reflexivity].
  destruct (rows db !! k') as [r|]; [|reflexivity].
  destruct (value r); [|reflexivity]. now destruct (live now r).
Qed.

Lemma X11_put_leaves_other_keys_witness :
  fst (get 3 "k'" (snd (put 2 "k" (JStr "b") (Some 1) (snd (put 0 "k'" (JStr "a") None new)))))
    = fst (get 3 "k'" (snd (put 0 "k'" (JStr "a") None new))) /\
  fst (hasKey "k'" (snd (put 2 "k" (JStr "b") (Some 1) (snd (put 0 "k'" (JStr "a") None new)))))
    = fst (hasKey "k'" (snd (put 0 "k'" (JStr "a") None new))).
Proof.
  exact (X11_put_leaves_other_keys "k" "k'" (JStr "b") (Some 1) 2 3
           (snd (put 0 "k'" (JStr "a") None new))
           (snd (put 2 "k" (JStr "b") (Some 1) (snd (put 0 "k'" (JStr "a") None new))))
           ltac:(discriminate) eq_refl eq_refl).
Defined.

(** ** The ttl is not checked *)

(** X12: [put] takes a zero or negative ttl as it comes.  The record is
    written, [hasKey] sees it, and it is expired from the start.  For a
    truthy value a [get] at the time of the write or later returns
    [null] and removes the record; for a falsy one (such as [null] or
    the empty string), stored as NULL, the [get] returns [true] and the
    record stays. *)
Theorem X12_non_positive_ttl (k : string) (v : jsvalue) (t writeTime now : Z)
    (db db1 : Database) :
  t <= 0 ->
  put writeTime k v (Some t) db = (Normal true, db1) ->
  fault_free db1 = true ->
  writeTime <= now ->
  fst (hasKey k db1) = Normal true /\
  exists db2,
    get now k db1 = (Normal (if truthy v then JNull else JBool true), db2) /\
    rows db2 !! k
      = if truthy v then None
        else Some {| value := None; ttl := Some (writeTime + t) |}.
Proof.
  intros Hneg Hput Hff Hnow. destruct (put_true_rows _ _ _ _ _ _ Hput) as [Hrows _].
  rewrite (hasKey_runs k db1 Hff), (get_select now k db1 Hff). cbn zeta.
  rewrite Hrows, lookup_insert_eq. split; [reflexivity|].
  unfold stored at 1. cbn [value]. destruct (truthy v) eqn:Ht.
  - replace (live now (stored writeTime v (Some t))) with false
      by (unfold live, stored; cbn [ttl]; lia).
    eexists. split; [reflexivity|]. rewrite rows_step. apply lookup_delete_eq.
  - eexists. split; [reflexivity|]. rewrite rows_step, lookup_insert_eq.
    unfold stored. now rewrite Ht.
Qed.

Lemma X12_non_positive_ttl_witness :
  (fst (hasKey "k" (snd (put 100 "k" (JStr "a") (Some (-1)) new))) = Normal true /\
   exists db2,
     get 100 "k" (snd (put 100 "k" (JStr "a") (Some (-1)) new)) = (Normal JNull, db2) /\
     rows db2 !! "k" = None) /\
  (fst (hasKey "k" (snd (put 100 "k" JNull (Some 0) new))) = Normal true /\
   exists db2,
     get 100 "k" (snd (put 100 "k" JNull (Some 0) new)) = (Normal (JBool true), db2) /\
     rows db2 !! "k" = Some {| value := None; ttl := Some 100 |}).
Proof.
  split.
  - exact (X12_non_positive_ttl "k" (JStr "a") (-1) 100 100 new
             (snd (put 100 "k" (JStr "a") (Some (-1)) new))
             ltac:(lia) eq_refl eq_refl ltac:(lia)).
  - exact (X12_non_positive_ttl "k" JNull 0 100 100 new
             (snd (put 100 "k" JNull (Some 0) new))
             ltac:(lia) eq_refl eq_refl ltac:(lia)).
Defined.

(** ** The constructor *)

(** X13: a cache constructed without persistence starts empty, whatever
    the file [cache.sqlite] holds: every [get] returns [null] and every
    [hasKey] returns [false]. *)
Theorem X13_memory_cache_starts_empty (file : option (gmap string CacheSchema))
    (schedule : list bool) (db : Database) (k : string) (now : Z) :
  constructor false file schedule = Normal db ->
  fault_free db = true ->
  rows db = ∅ /\
  fst (get now k db) = Normal JNull /\
  fst (hasKey k db) = Normal false.
Proof.
  intros Hc Hff.
  assert (Hrows : rows db = ∅).
  { unfold constructor, open_database, initializeSchema in Hc.
    destruct schedule as [|[] [|[] ?]]; cbn in Hc; try discriminate;
      now injection Hc as <-. }
  rewrite (get_select now k db Hff), (hasKey_runs k db Hff), Hrows. cbn zeta.
  rewrite lookup_empty. repeat split.
Qed.

Lemma X13_memory_cache_starts_empty_witness :
  rows new = ∅ /\
  fst (get 7 "k" new) = Normal JNull /\
  fst (hasKey "k" new) = Normal false.
Proof.
  exact (X13_memory_cache_starts_empty
           (Some (<["k" := {| value := Some "1"; ttl := None |}]> ∅)) [] new "k" 7
           eq_refl eq_refl).
Defined.

(** X14: a cache constructed with persistence starts with the rows of
    the table that the file holds, none lost and none added (CREATE
    TABLE IF NOT EXISTS leaves a table that is there alone), and with no
    rows when the file has no table: [hasKey] tells the keys of the
    file. *)
Theorem X14_persistent_cache_keeps_rows (file : option (gmap string CacheSchema))
    (schedule : list bool) (db : Database) (k : string) :
  constructor true file schedule = Normal db ->
  fault_free db = true ->
  rows db = match file with Some t => t | None => ∅ end /\
  fst (hasKey k db)
    = Normal (match file with
              | Some t => match t !! k with Some _ => true | None => false end
              | None => false
              end).
Proof.
  intros Hc Hff.
  assert (Hrows : rows db = match file with Some t => t | None => ∅ end).
  { unfold constructor, open_database, initializeSchema in Hc.
    destruct schedule as [|[] [|[] ?]]; cbn in Hc; try discriminate;
      now injection Hc as <-. }
  split; [exact Hrows|]. rewrite (hasKey_runs k db Hff), Hrows.
  destruct file as [t|]; [reflexivity|]. now rewrite lookup_empty.
Qed.

Lemma X14_persistent_cache_keeps_rows_witness :
  rows (step (<["k" := {| value := Some "1"; ttl := Some 10 |}]> ∅) new)
    = <["k" := {| value := Some "1"; ttl := Some 10 |}]> ∅ /\
  fst (hasKey "k" (step (<["k" := {| value := Some "1"; ttl := Some 10 |}]> ∅) new))
    = Normal true.
Proof.
  exact (X14_persistent_cache_keeps_rows
           (Some (<["k" := {| value := Some "1"; ttl := Some 10 |}]> ∅)) []
           (step (<["k" := {| value := Some "1"; ttl := Some 10 |}]> ∅) new) "k"
           eq_refl eq_refl).
Defined.

(** X15: the constructor catches nothing: it throws exactly when opening
    the database raises or the CREATE TABLE of [initializeSchema]
    raises. *)
Theorem X15_constructor_throws_iff (persistance : bool)
    (file : option (gmap string CacheSchema)) (schedule : list bool) :
  constructor persistance file schedule = Throw sqlite_error
  <-> match schedule with
      | true :: _ => True
      | _ :: true :: _ => True
      | _ => False
      end.
Proof.
  unfold constructor, open_database, initializeSchema.
  destruct schedule as [|[] [|[] ?]]; cbn; split;
    solve [trivial | discriminate | contradiction].
Qed.

End Extras.
